(** * Funnel recommendation engine of [marketing_strategy_picker.py]

    A shallow embedding of the class [MarketingStrategyPicker]: the static
    stage catalog [FUNNEL_STAGES], the label index built by
    [_group_strategies_by_type], the per-stage query
    [get_strategies_for_stage] and the report builder
    [get_funnel_recommendations], followed by the properties of ranking,
    deduplication, truncation and report order. The printing functions,
    the stage selection of the interactive mode and the record loop of the
    parser are embedded as well, and the two query methods a second time
    on a store of list objects, to follow what a call changes in place. *)

From Stdlib Require Import ZArith Sorted Permutation.
From stdpp Require Import gmap strings list fin_maps sorting pretty.

Open Scope string_scope.
Open Scope list_scope.
Open Scope Z_scope.
Open Scope stdpp_scope.

(** ** The fragment of the Python runtime the engine relies on *)

Module Py.

(** Exceptions the modelled statements can raise. A subscript [d[k]] on a
    dict raises [KeyError] when the key is absent. *)
Inductive exn : Type :=
| KeyError (key : string).

(** Outcome of evaluating a statement: a value, or a raised exception. *)
Inductive result (A : Type) : Type :=
| Ok (a : A)
| Raise (e : exn).
Global Arguments Ok {A} a.
Global Arguments Raise {A} e.

Global Instance result_ret : MRet result := λ A a, Ok a.
Global Instance result_bind : MBind result := λ A B k m,
  match m with
  | Ok a => k a
  | Raise e => Raise e
  end.

Definition raises {A} (m : result A) : Prop := ∃ e, m = Raise e.

(** [[f(x) for x in l]] where [f] may raise: evaluation stops at the first
    exception. *)
Fixpoint mapM {A B} (f : A → result B) (l : list A) : result (list B) :=
  match l with
  | [] => Ok []
  | x :: l' => y ← f x; ys ← mapM f l'; Ok (y :: ys)
  end.

(** *** Insertion-ordered dicts with string keys

    [FUNNEL_STAGES] and the report are iterated, so their key order is
    observable: they are association lists holding each key once, in
    insertion order. *)
Section dict.
Context {V : Type}.

Fixpoint dict_get (d : list (string * V)) (k : string) : option V :=
  match d with
  | [] => None
  | (k', v) :: d' => if decide (k' = k) then Some v else dict_get d' k
  end.

(** [k in d] *)
Definition dict_contains (d : list (string * V)) (k : string) : bool :=
  bool_decide (is_Some (dict_get d k)).

(** [d[k]] *)
Definition dict_getitem (d : list (string * V)) (k : string) : result V :=
  match dict_get d k with
  | Some v => Ok v
  | None => Raise (KeyError k)
  end.

(** [d[k] = v]: an existing key keeps its position, a new one goes last. *)
Fixpoint dict_setitem (d : list (string * V)) (k : string) (v : V)
  : list (string * V) :=
  match d with
  | [] => [(k, v)]
  | (k', v') :: d' =>
      if decide (k' = k) then (k, v) :: d'
      else (k', v') :: dict_setitem d' k v
  end.

(** [list(d.keys())] *)
Definition dict_keys (d : list (string * V)) : list string := d.*1.

(** [m[k]] on a plain dict that is only looked up, never iterated. *)
Definition map_getitem (m : gmap string V) (k : string) : result V :=
  match m !! k with
  | Some v => Ok v
  | None => Raise (KeyError k)
  end.

End dict.

(** *** Slicing: [l[:stop]]

    A negative [stop] counts from the end and is clamped at the start of
    the list; a [stop] past the end is clamped at the end. *)
Definition slice_to {A} (l : list A) (stop : Z) : list A :=
  if bool_decide (stop < 0)
  then take (Z.to_nat (Z.max 0 (Z.of_nat (length l) + stop))) l
  else take (Z.to_nat stop) l.

(** *** Sorting: [list.sort] and [sorted]

    Python documents its sort as stable and as using only [<] between
    keys. On keys that [<] orders totally the result is fixed by these two
    facts, so the sort is modelled by stable insertion: an element moves
    right only past elements that are strictly smaller than it. *)
Section sort.
Context {A : Type} (lt : A → A → bool).

Fixpoint insert_stable (x : A) (l : list A) : list A :=
  match l with
  | [] => [x]
  | y :: l' => if lt y x then y :: insert_stable x l' else x :: y :: l'
  end.

Fixpoint stable_sort (l : list A) : list A :=
  match l with
  | [] => []
  | x :: l' => insert_stable x (stable_sort l')
  end.

End sort.

(** [sorted(l, key=key)] on integer keys. The keys are computed first, one
    call per element in list order, so an exception raised by [key]
    escapes before any comparison. *)
Definition sorted_by_int_key {A} (key : A → result Z) (l : list A)
  : result (list A) :=
  decorated ← mapM (λ x, k ← key x; Ok (k, x)) l;
  Ok ((stable_sort (λ a b, bool_decide (a.1 < b.1)) decorated).*2).

(** [l.sort(key=key, reverse=True)] on string keys: every comparison is
    reversed, and elements with equal keys keep their original order.
    Strings hold the UTF-8 bytes of the text; byte-wise lexicographic order
    coincides with Python's order by code points. *)
Definition sort_by_str_key_reverse {A} (key : A → string) (l : list A)
  : list A :=
  stable_sort (λ a b, String.ltb (key b) (key a)) l.

End Py.

Import Py.

(** ** Strategy records

    A record as [parse_marketing_strategies] emits it and [json.load] returns
    it: [name] and [description] are always present, the other keys may be
    missing, which the engine reads through [dict.get] with a default. *)
Record Strategy : Type := {
  name : string;
  description : string;
  types : option (list string);
  effort_hours : option Z;
  impact : option string
}.

Global Instance Strategy_eq_dec : EqDecision Strategy.
Proof. solve_decision. Defined.

(** [strategy.get('types', [])] *)
Definition get_types (strategy : Strategy) : list string :=
  default [] (types strategy).

(** [x.get('impact', '')], the sort key of line 114 *)
Definition get_impact (x : Strategy) : string :=
  default "" (impact x).

(** ** The stage catalog *)

Record StageInfo : Type := {
  stage_name : string;
  stage_description : string;
  stage_types : list string;
  order : Z
}.

Definition FUNNEL_STAGES : list (string * StageInfo) :=
  [ ("awareness",
      {| stage_name := "Осведомленность";
         stage_description := "Привлечение внимания к продукту/бренду";
         stage_types := ["Awareness"];
         order := 1 |});
    ("acquisition",
      {| stage_name := "Привлечение";
         stage_description := "Привлечение трафика на сайт/приложение";
         stage_types := ["Acquisition"];
         order := 2 |});
    ("activation",
      {| stage_name := "Активация";
         stage_description :=
           "Вовлечение пользователей, регистрация, первый опыт";
         stage_types := ["Activation"];
         order := 3 |});
    ("revenue",
      {| stage_name := "Доход";
         stage_description := "Совершение первой покупки";
         stage_types := ["Revenue"];
         order := 4 |});
    ("retention",
      {| stage_name := "Удержание";
         stage_description := "Повторные покупки, лояльность клиентов";
         stage_types := ["Retention"];
         order := 5 |});
    ("referral",
      {| stage_name := "Рефералы";
         stage_description := "Рекомендации, сарафанное радио";
         stage_types := ["Referral"];
         order := 6 |}) ].

(** ** The picker *)

Record MarketingStrategyPicker : Type := {
  strategies : list Strategy;
  strategies_by_type : gmap string (list Strategy)
}.

(** Lines 75-81. [grouped] is a [defaultdict(list)]: a label seen for the
    first time starts from the empty bucket. *)
Definition _group_strategies_by_type (strategies : list Strategy)
  : gmap string (list Strategy) :=
  foldl (λ grouped strategy,
           foldl (λ grouped strategy_type,
                    <[strategy_type :=
                        default [] (grouped !! strategy_type) ++ [strategy]]>
                      grouped)
                 grouped (get_types strategy))
        ∅ strategies.

(** Lines 58-61, with [loaded] the list [_load_strategies] returned. *)
Definition __init__ (loaded : list Strategy) : MarketingStrategyPicker :=
  {| strategies := loaded;
     strategies_by_type := _group_strategies_by_type loaded |}.

(** Lines 101-103: the loop that extends [strategies] with the bucket of
    every label of the stage. *)
Fixpoint extend_by_types (by_type : gmap string (list Strategy))
  (stage_types : list string) (strategies : list Strategy)
  : result (list Strategy) :=
  match stage_types with
  | [] => Ok strategies
  | strategy_type :: rest =>
      if bool_decide (is_Some (by_type !! strategy_type))
      then bucket ← map_getitem by_type strategy_type;
           extend_by_types by_type rest (strategies ++ bucket)
      else extend_by_types by_type rest strategies
  end.

(** Lines 106-111: the deduplication loop, threading [seen_names] and
    [unique_strategies]. *)
Fixpoint dedup_loop (strategies : list Strategy) (seen_names : gset string)
  (unique_strategies : list Strategy) : list Strategy :=
  match strategies with
  | [] => unique_strategies
  | strategy :: rest =>
      if bool_decide (name strategy ∉ seen_names)
      then dedup_loop rest ({[name strategy]} ∪ seen_names)
                      (unique_strategies ++ [strategy])
      else dedup_loop rest seen_names unique_strategies
  end.

(** Lines 83-115. *)
Definition get_strategies_for_stage (self : MarketingStrategyPicker)
  (stage_key : string) (limit : Z) : result (list Strategy) :=
  if negb (dict_contains FUNNEL_STAGES stage_key) then Ok []
  else
    stage_info ← dict_getitem FUNNEL_STAGES stage_key;
    strategies ←
      extend_by_types (strategies_by_type self) (stage_types stage_info) [];
    let unique_strategies := dedup_loop strategies ∅ [] in
    let unique_strategies :=
      sort_by_str_key_reverse get_impact unique_strategies in
    Ok (slice_to unique_strategies limit).

(** One entry of the report, lines 146-151. *)
Record Recommendation : Type := {
  rec_stage_name : string;
  rec_description : string;
  rec_strategies : list Strategy;
  count : Z
}.

(** The argument [selected_stages]: [None], a list, or any other value,
    which line 132 wraps into a one-element list. *)
Inductive Selection : Type :=
| SelNone
| SelList (stages : list string)
| SelOther (stage : string).

(** Lines 142-151: the loop filling [recommendations]. *)
Fixpoint recommend_loop (self : MarketingStrategyPicker)
  (sorted_stages : list string) (strategies_per_stage : Z)
  (recommendations : list (string * Recommendation))
  : result (list (string * Recommendation)) :=
  match sorted_stages with
  | [] => Ok recommendations
  | stage_key :: rest =>
      stage_info ← dict_getitem FUNNEL_STAGES stage_key;
      strategies ←
        get_strategies_for_stage self stage_key strategies_per_stage;
      recommend_loop self rest strategies_per_stage
        (dict_setitem recommendations stage_key
           {| rec_stage_name := stage_name stage_info;
              rec_description := stage_description stage_info;
              rec_strategies := strategies;
              count := Z.of_nat (length strategies) |})
  end.

(** Lines 117-153. *)
Definition get_funnel_recommendations (self : MarketingStrategyPicker)
  (selected_stages : Selection) (strategies_per_stage : Z)
  : result (list (string * Recommendation)) :=
  let selected_stages :=
    match selected_stages with
    | SelNone => dict_keys FUNNEL_STAGES
    | SelList stages => stages
    | SelOther stage => [stage]
    end in
  sorted_stages ←
    sorted_by_int_key
      (λ x, stage_info ← dict_getitem FUNNEL_STAGES x; Ok (order stage_info))
      (filter (λ stage, dict_contains FUNNEL_STAGES stage) selected_stages);
  recommend_loop self sorted_stages strategies_per_stage [].

(** ** Sample data: the two records of the worked example *)

Definition strategy_X : Strategy :=
  {| name := "X"; description := ""; types := Some ["Awareness"];
     effort_hours := None; impact := Some "High" |}.

Definition strategy_Y : Strategy :=
  {| name := "Y"; description := "";
     types := Some ["Awareness"; "Retention"];
     effort_hours := None; impact := Some "Low" |}.

Definition sample_picker : MarketingStrategyPicker :=
  __init__ [strategy_X; strategy_Y].

(** A record that lists the label of one stage twice, so that its bucket
    holds it twice. *)
Definition strategy_W : Strategy :=
  {| name := "W"; description := "";
     types := Some ["Awareness"; "Awareness"];
     effort_hours := Some 3; impact := None |}.

Definition twice_picker : MarketingStrategyPicker :=
  __init__ [strategy_W; strategy_X].

(** The catalog entry of the first stage. *)
Definition awareness_info : StageInfo :=
  {| stage_name := "Осведомленность";
     stage_description := "Привлечение внимания к продукту/бренду";
     stage_types := ["Awareness"];
     order := 1 |}.

(** ** Vocabulary of the statements *)

(** The catalog entry of a stage key, if it has one. *)
Definition stage_of (stage_key : string) : option StageInfo :=
  dict_get FUNNEL_STAGES stage_key.

(** The catalog [order] of a stage key (0 for a key outside the catalog, a
    value no stage has). *)
Definition order_of (stage_key : string) : Z :=
  from_option order 0 (stage_of stage_key).

(** The bucket the index holds for a label, empty for an unknown label. *)
Definition bucket_of (self : MarketingStrategyPicker) (label : string)
  : list Strategy :=
  default [] (strategies_by_type self !! label).

(** The per-label buckets of a stage, concatenated in label-declaration
    order. *)
Definition stage_buckets (self : MarketingStrategyPicker)
  (stage_info : StageInfo) : list Strategy :=
  stage_types stage_info ≫= bucket_of self.

(** [strategy] is the first record of [l] that carries its name. *)
Definition first_with_name (l : list Strategy) (strategy : Strategy) : Prop :=
  ∃ i : nat, l !! i = Some strategy ∧
    ∀ (j : nat) other, (j < i)%nat → l !! j = Some other →
      name other ≠ name strategy.

(** The deduplicated bucket of a stage, before ranking. *)
Definition unique_bucket (self : MarketingStrategyPicker)
  (stage_info : StageInfo) : list Strategy :=
  dedup_loop (stage_buckets self stage_info) ∅ [].

(** The deduplicated bucket of a stage, ranked by impact. *)
Definition ranked_bucket (self : MarketingStrategyPicker)
  (stage_info : StageInfo) : list Strategy :=
  sort_by_str_key_reverse get_impact (unique_bucket self stage_info).

(** Descending order of impact keys: the earlier record's key is not below
    the later one's. *)
Definition impact_ge (a b : Strategy) : Prop :=
  String.le (get_impact b) (get_impact a).

(** What grouping puts under [label]: every record once per occurrence of
    the label among its types, in record order. *)
Definition labelled (label : string) (records : list Strategy)
  : list Strategy :=
  records ≫= λ strategy,
    (λ _, strategy) <$> filter (λ ty, ty = label) (get_types strategy).

(** The report entry of a stage whose query returned the sliced ranked
    bucket. *)
Definition entry_of (self : MarketingStrategyPicker) (stage_info : StageInfo)
  (limit : Z) : Recommendation :=
  let strategies := slice_to (ranked_bucket self stage_info) limit in
  {| rec_stage_name := stage_name stage_info;
     rec_description := stage_description stage_info;
     rec_strategies := strategies;
     count := Z.of_nat (length strategies) |}.

(** The stage keys a request selects, before filtering and sorting. *)
Definition requested (selected_stages : Selection) : list string :=
  match selected_stages with
  | SelNone => dict_keys FUNNEL_STAGES
  | SelList stages => stages
  | SelOther stage => [stage]
  end.

(** The keys of a dict after [d[k] = v], given its keys before. *)
Definition add_key (keys : list string) (k : string) : list string :=
  if decide (k ∈ keys) then keys else keys ++ [k].

(** ** The stage selection of the interactive mode

    The part of [interactive_mode] between reading the choice and asking
    for the report (lines 215-231), on the numbers that
    [int(x.strip())] produced from the comma-separated choice. *)

(** Default values of the arguments [limit] (line 83) and
    [strategies_per_stage] (line 118). *)
Definition default_limit : Z := 10.
Definition default_strategies_per_stage : Z := 5.

(** Lines 221-224: the inner loop over [FUNNEL_STAGES.items()], left at the
    first stage whose order is [num]. *)
Fixpoint first_stage_with_order (stages : list (string * StageInfo))
  (num : Z) : option string :=
  match stages with
  | [] => None
  | (stage_key, stage_info) :: rest =>
      if bool_decide (order stage_info = num) then Some stage_key
      else first_stage_with_order rest num
  end.

(** Lines 219-224: the outer loop, appending to [selected_stages]. *)
Fixpoint select_stages (selected_numbers : list Z)
  (selected_stages : list string) : list string :=
  match selected_numbers with
  | [] => selected_stages
  | num :: rest =>
      match first_stage_with_order FUNNEL_STAGES num with
      | Some stage_key => select_stages rest (selected_stages ++ [stage_key])
      | None => select_stages rest selected_stages
      end
  end.

(** A choice that is not a quit word: the text ['0'], or a text whose
    comma-separated parts all convert to integers. *)
Inductive Choice : Type :=
| ChoiceAll
| ChoiceNumbers (selected_numbers : list Z).

(** Lines 215-231 for such a choice: [None] when the choice is rejected as
    invalid (line 226) and the prompt is repeated, else the outcome of the
    report request of line 231. *)
Definition recommendations_for_choice (self : MarketingStrategyPicker)
  (choice : Choice) : option (result (list (string * Recommendation))) :=
  let selected_stages :=
    match choice with
    | ChoiceAll => dict_keys FUNNEL_STAGES
    | ChoiceNumbers selected_numbers => select_stages selected_numbers []
    end in
  if bool_decide (selected_stages = []) then None
  else Some (get_funnel_recommendations self (SelList selected_stages)
                                        default_strategies_per_stage).

(** ** Console output

    The printing functions write to standard output and return nothing. A
    run of such a function is modelled by the arguments of its [print]
    calls, in order, and the exception that ended it, if one did. *)

Module Console.

(** What can end a run early: an exception of a dict subscript, or the
    [IndexError] of [l[0]] on an empty list. *)
Inductive raised : Type :=
| Raised (e : exn)
| IndexError.

Definition run : Type := list string * option raised.

(** [print(line)] *)
Definition print (line : string) : run := ([line], None).

(** A statement that prints nothing. *)
Definition skip : run := ([], None).

Definition raise (e : raised) : run := ([], Some e).

(** Sequencing: the second statement runs only if the first one ended
    normally. *)
Definition seq (first second : run) : run :=
  match first.2 with
  | Some _ => first
  | None => (first.1 ++ second.1, second.2)
  end.

(** [for x in l: body] *)
Fixpoint for_each {A} (body : A → run) (l : list A) : run :=
  match l with
  | [] => skip
  | x :: l' => seq (body x) (for_each body l')
  end.

(** The line feed of ["\n"]. *)
Definition nl : string :=
  String (Ascii.Ascii false true false true false false false false) "".

(** [s * n] on a string. *)
Fixpoint str_mul (s : string) (n : nat) : string :=
  match n with
  | O => ""
  | S n' => s +:+ str_mul s n'
  end.

(** A byte that continues a UTF-8 sequence: [10xxxxxx]. *)
Definition is_continuation (c : Ascii.ascii) : bool :=
  match c with
  | Ascii.Ascii _ _ _ _ _ _ b6 b7 => b7 && negb b6
  end.

(** [s[:n]] for [n] at least 0. Python counts code points; on the UTF-8
    bytes that is every byte up to the lead byte of code point [n]. *)
Fixpoint str_slice_to (s : string) (n : nat) : string :=
  match s with
  | "" => ""
  | String c s' =>
      if is_continuation c then String c (str_slice_to s' n)
      else match n with
           | O => ""
           | S n' => String c (str_slice_to s' n')
           end
  end.

(** [enumerate(l, start)] *)
Fixpoint enumerate {A} (l : list A) (start : Z) : list (Z * A) :=
  match l with
  | [] => []
  | x :: l' => (start, x) :: enumerate l' (start + 1)
  end.

End Console.

Import Console.

(** Lines 162 and 202: the number of strategies announced for a stage,
    [len(self.strategies_by_type.get(stage_info['types'][0], []))]. *)
Definition available_count (self : MarketingStrategyPicker)
  (stage_info : StageInfo) : option Z :=
  match stage_types stage_info with
  | [] => None
  | strategy_type :: _ =>
      Some (Z.of_nat
              (length (default [] (strategies_by_type self !! strategy_type))))
  end.

(** Lines 155-166. The stages come from
    [sorted(self.FUNNEL_STAGES.items(), key=lambda x: x[1]['order'])]. *)
Definition print_funnel_overview (self : MarketingStrategyPicker) : run :=
  seq (print ("🎯 ВОРОНКА ПРОДАЖ: от гостя до клиента" +:+ nl))
  (seq (print (str_mul "=" 60))
  (for_each
     (λ item : string * StageInfo,
        let stage_info := item.2 in
        match available_count self stage_info with
        | None => raise IndexError
        | Some count =>
            seq (print (pretty (order stage_info) +:+ ". "
                          +:+ stage_name stage_info))
            (seq (print ("   📝 " +:+ stage_description stage_info))
            (seq (print ("   📊 Доступно стратегий: " +:+ pretty count))
                 (print "")))
        end)
     (stable_sort (λ a b : string * StageInfo,
                     bool_decide (order a.2 < order b.2))
                  FUNNEL_STAGES))).

(** Lines 179-191: the body of the loop over the strategies of a stage. An
    impact is printed unless it is missing or empty, an effort unless it is
    missing or 0. *)
Definition print_strategy (i : Z) (strategy : Strategy) : run :=
  seq (print ("   " +:+ pretty i +:+ ". " +:+ name strategy))
  (seq (print ("      💡 "
                 +:+ str_slice_to (description strategy) 100 +:+ "..."))
  (seq (match impact strategy with
        | Some impact =>
            if bool_decide (impact ≠ "")
            then print ("      📈 Влияние: " +:+ impact)
            else skip
        | None => skip
        end)
  (seq (match effort_hours strategy with
        | Some effort =>
            if bool_decide (effort ≠ 0)
            then print ("      ⏱️  Усилий: " +:+ pretty effort +:+ " часов")
            else skip
        | None => skip
        end)
       (print "")))).

(** Lines 168-191, on the dict [recommendations]. *)
Definition print_recommendations
  (recommendations : list (string * Recommendation)) : run :=
  seq (print ("🎯 РЕКОМЕНДАЦИИ ПО ЭТАПАМ ВОРОНКИ" +:+ nl))
  (seq (print (str_mul "=" 80))
  (for_each
     (λ item : string * Recommendation,
        let stage_key := item.1 in
        let data := item.2 in
        match dict_getitem FUNNEL_STAGES stage_key with
        | Raise e => raise (Raised e)
        | Ok stage_info =>
            seq (print (nl +:+ pretty (order stage_info) +:+ ". "
                          +:+ rec_stage_name data))
            (seq (print (str_mul "-" 60))
            (seq (print ("📝 " +:+ rec_description data))
            (seq (print ("📊 Найдено стратегий: " +:+ pretty (count data) +:+ nl))
                 (for_each (λ numbered : Z * Strategy,
                              print_strategy numbered.1 numbered.2)
                           (enumerate (rec_strategies data) 1)))))
        end)
     recommendations)).

(** ** Records from the parser

    The loop of [parse_marketing_strategies] (lines 31-90 of
    [marketing_strategies_parser.py]) over the containers that
    [soup.find_all] returned. A container is given by what the queries of
    the loop body return on it, texts being the results of
    [get_text(strip=True)]. *)
Record Container : Type := {
  name_elem : option string;
  desc_elem : option string;
  funnel_elems : list string;
  found_effort_hours : option Z;
  impact_elem : option string
}.

(** Lines 38-84 for one container; [None] when the body is left by
    [continue] (line 42). [found_effort_hours] is the value of
    [effort_hours] after lines 60-65. *)
Definition parse_container (container : Container) : option Strategy :=
  match name_elem container with
  | None => None
  | Some strategy_name =>
      let description := default "" (desc_elem container) in
      let funnel_steps :=
        filter (λ step_text, step_text ≠ "" ∧ step_text ≠ "+1")
               (funnel_elems container) in
      let effort_hours := found_effort_hours container in
      let impact := impact_elem container in
      Some {| name := strategy_name;
              description := description;
              types := Some funnel_steps;
              effort_hours := effort_hours;
              impact := match impact with
                        | Some text =>
                            if bool_decide (text ≠ "") then Some text
                            else None
                        | None => None
                        end |}
  end.

(** Lines 31-90: the records appended to [strategies], in container order. *)
Definition parse_marketing_strategies (strategy_containers : list Container)
  : list Strategy :=
  omap parse_container strategy_containers.

(** A container with a name, a label and a counter of further labels, and
    one without a name. *)
Definition container_A : Container :=
  {| name_elem := Some "A"; desc_elem := None;
     funnel_elems := ["Awareness"; "+1"];
     found_effort_hours := Some 0; impact_elem := Some "" |}.

Definition container_unnamed : Container :=
  {| name_elem := None; desc_elem := Some "text";
     funnel_elems := ["Referral"];
     found_effort_hours := None; impact_elem := Some "High" |}.

(** ** The picker as an object with mutable lists

    Python lists are objects: [extend], [append] and [sort] change a list
    in place, and a change made through one reference is seen through every
    other. To say what a call leaves behind for the next one, the methods
    are modelled a second time on a store of list objects: the buckets of
    the index, [self.strategies], the local lists of a call and the lists
    it returns all live there. *)

Module Store.

(** The store: the list objects by address. *)
Abbreviation store := (gmap positive (list Strategy)).

(** How a run from a store ends: with a value, with an exception, or not
    at all ([Stuck]: a reference to no object, or a loop out of fuel;
    neither is a run of the program). *)
Inductive outcome (A : Type) : Type :=
| Returns (a : A) (h : store)
| Raises (e : exn) (h : store)
| Stuck.
Global Arguments Returns {A} a h.
Global Arguments Raises {A} e h.
Global Arguments Stuck {A}.

Definition St (A : Type) : Type := store → outcome A.

Global Instance St_ret : MRet St := λ A a h, Returns a h.
Global Instance St_bind : MBind St := λ A B k m h,
  match m h with
  | Returns a h' => k a h'
  | Raises e h' => Raises e h'
  | Stuck => Stuck
  end.

(** An expression that touches no list object. *)
Definition lift {A} (m : result A) : St A := λ h,
  match m with
  | Ok a => Returns a h
  | Raise e => Raises e h
  end.

(** A new list object: [[]], or the value of a slice. *)
Definition alloc (l : list Strategy) : St positive := λ h,
  let r := fresh (dom h) in Returns r (<[r := l]> h).

Definition read (r : positive) : St (list Strategy) := λ h,
  match h !! r with
  | Some l => Returns l h
  | None => Stuck
  end.

Definition write (r : positive) (l : list Strategy) : St unit := λ h,
  match h !! r with
  | Some _ => Returns () (<[r := l]> h)
  | None => Stuck
  end.

(** [r.append(x)] *)
Definition list_append (r : positive) (x : Strategy) : St unit :=
  l ← read r; write r (l ++ [x]).

(** [r.extend(src)] *)
Definition list_extend (r src : positive) : St unit :=
  l ← read r; l' ← read src; write r (l ++ l').

(** [r.sort(key=lambda x: x.get('impact', ''), reverse=True)] *)
Definition list_sort_by_impact (r : positive) : St unit :=
  l ← read r; write r (sort_by_str_key_reverse get_impact l).

(** [r[:stop]], a new list object. *)
Definition list_slice_to (r : positive) (stop : Z) : St positive :=
  l ← read r; alloc (slice_to l stop).

(** [len(r)] *)
Definition list_len (r : positive) : St Z :=
  l ← read r; mret (Z.of_nat (length l)).

(** [for x in r: body], with the local variables the body assigns as [s].
    The iterator of a list reads the object anew at every step: element
    [i], until [i] reaches the current length. The loop may not end if the
    body makes the list grow, so it runs on fuel. *)
Fixpoint for_in {L} (fuel : nat) (r : positive) (i : nat)
  (body : L → Strategy → St L) (s : L) : St L :=
  match fuel with
  | O => λ _, Stuck
  | S fuel' =>
      l ← read r;
      match l !! i with
      | None => mret s
      | Some x => s' ← body s x; for_in fuel' r (S i) body s'
      end
  end.

End Store.

Import Store.

(** The picker object: its attributes [strategies], a list object, and
    [strategies_by_type], a dict from labels to list objects. *)
Record PickerObject : Type := {
  strategies_ref : positive;
  strategies_by_type_ref : gmap string positive
}.

(** Lines 101-103 on the objects: [strategies.extend(bucket)]. *)
Fixpoint extend_by_types_st (self : PickerObject) (stage_types : list string)
  (strategies : positive) : St unit :=
  match stage_types with
  | [] => mret ()
  | strategy_type :: rest =>
      _ ← (if bool_decide
                (is_Some (strategies_by_type_ref self !! strategy_type))
           then bucket ← lift (map_getitem (strategies_by_type_ref self)
                                           strategy_type);
                list_extend strategies bucket
           else mret ());
      extend_by_types_st self rest strategies
  end.

(** Lines 83-115 on the objects. The result is a new list object. *)
Definition get_strategies_for_stage_st (fuel : nat) (self : PickerObject)
  (stage_key : string) (limit : Z) : St positive :=
  if negb (dict_contains FUNNEL_STAGES stage_key) then alloc []
  else
    stage_info ← lift (dict_getitem FUNNEL_STAGES stage_key);
    strategies ← alloc [];
    _ ← extend_by_types_st self (stage_types stage_info) strategies;
    unique_strategies ← alloc [];
    _ ← for_in fuel strategies 0
          (λ (seen_names : gset string) strategy,
             if bool_decide (name strategy ∉ seen_names)
             then _ ← list_append unique_strategies strategy;
                  mret ({[name strategy]} ∪ seen_names)
             else mret seen_names)
          ∅;
    _ ← list_sort_by_impact unique_strategies;
    list_slice_to unique_strategies limit.

(** An entry of the report whose [strategies] is a list object. *)
Record RecommendationObject : Type := {
  obj_stage_name : string;
  obj_description : string;
  obj_strategies : positive;
  obj_count : Z
}.

(** Lines 142-151 on the objects. *)
Fixpoint recommend_loop_st (fuel : nat) (self : PickerObject)
  (sorted_stages : list string) (strategies_per_stage : Z)
  (recommendations : list (string * RecommendationObject))
  : St (list (string * RecommendationObject)) :=
  match sorted_stages with
  | [] => mret recommendations
  | stage_key :: rest =>
      stage_info ← lift (dict_getitem FUNNEL_STAGES stage_key);
      strategies ←
        get_strategies_for_stage_st fuel self stage_key strategies_per_stage;
      count ← list_len strategies;
      recommend_loop_st fuel self rest strategies_per_stage
        (dict_setitem recommendations stage_key
           {| obj_stage_name := stage_name stage_info;
              obj_description := stage_description stage_info;
              obj_strategies := strategies;
              obj_count := count |})
  end.

(** Lines 117-153 on the objects. *)
Definition get_funnel_recommendations_st (fuel : nat) (self : PickerObject)
  (selected_stages : Selection) (strategies_per_stage : Z)
  : St (list (string * RecommendationObject)) :=
  let selected_stages :=
    match selected_stages with
    | SelNone => dict_keys FUNNEL_STAGES
    | SelList stages => stages
    | SelOther stage => [stage]
    end in
  sorted_stages ←
    lift (sorted_by_int_key
            (λ x, stage_info ← dict_getitem FUNNEL_STAGES x;
                  Ok (order stage_info))
            (filter (λ stage, dict_contains FUNNEL_STAGES stage)
                    selected_stages));
  recommend_loop_st fuel self sorted_stages strategies_per_stage [].

(** What the picker object holds in a store: the picker of the first
    model. *)
Definition snapshot (h : store) (self : PickerObject)
  : MarketingStrategyPicker :=
  {| strategies := default [] (h !! strategies_ref self);
     strategies_by_type := omap (λ r, h !! r) (strategies_by_type_ref self) |}.

(** Every bucket of the index is a list object of the store. *)
Definition index_allocated (h : store) (self : PickerObject) : Prop :=
  map_Forall (λ _ r, is_Some (h !! r)) (strategies_by_type_ref self).

(** The store holds, under the references of the picker object, the index
    of the picker [p]. *)
Definition holds_index (h : store) (self : PickerObject)
  (p : MarketingStrategyPicker) : Prop :=
  index_allocated h self ∧
  ∀ label, strategies_by_type p !! label
           = strategies_by_type_ref self !! label ≫= λ r, h !! r.

(** Fuel that lets every loop of a call run to its end: more than the
    number of records in the buckets of the index, stage by stage. *)
Definition fuel_bound (p : MarketingStrategyPicker) : nat :=
  S (sum_list_with (λ item : string * StageInfo,
                      length (stage_buckets p item.2))
                   FUNNEL_STAGES).

(** What a report holds in a store: its entries with the contents of their
    lists, as serialization would write them. *)
Definition report_contents (h : store)
  (report : list (string * RecommendationObject))
  : list (string * Recommendation) :=
  (λ item : string * RecommendationObject,
     (item.1, {| rec_stage_name := obj_stage_name item.2;
                 rec_description := obj_description item.2;
                 rec_strategies := default [] (h !! obj_strategies item.2);
                 count := obj_count item.2 |})) <$> report.

(** A store with the list [self.strategies] and the buckets of the two
    records of the worked example. *)
Definition sample_store : store :=
  {[ 1%positive := [strategy_X; strategy_Y];
     2%positive := [strategy_X; strategy_Y];
     3%positive := [strategy_Y] ]}.

Definition sample_object : PickerObject :=
  {| strategies_ref := 1;
     strategies_by_type_ref :=
       {[ "Awareness" := 2%positive; "Retention" := 3%positive ]} |}.

(** ** Further vocabulary *)

(** The record carries at least one label of the stage. *)
Definition carries_label_of (stage_info : StageInfo) (strategy : Strategy)
  : Prop :=
  Exists (λ label, label ∈ get_types strategy) (stage_types stage_info).

Global Instance carries_label_of_dec stage_info strategy :
  Decision (carries_label_of stage_info strategy).
Proof. unfold carries_label_of. apply _. Defined.

(** ** Facts about the runtime fragment *)

Lemma StronglySorted_weaken {A} (R1 R2 : relation A) (l : list A) :
  (∀ a b, R1 a b → R2 a b) → StronglySorted R1 l → StronglySorted R2 l.
Proof.
  intros HR. induction 1 as [|x l Hl IH Hx]; constructor; [done|].
  eapply Forall_impl; [exact Hx|]. intros y. apply HR.
Qed.

Lemma StronglySorted_sublist {A} (R : relation A) (l1 l2 : list A) :
  l1 `sublist_of` l2 → StronglySorted R l2 → StronglySorted R l1.
Proof.
  induction 1 as [|x l1 l2 Hsub IH|x l1 l2 Hsub IH]; intros Hl2.
  - done.
  - apply StronglySorted_cons in Hl2 as [Hx Hl2].
    constructor; [by apply IH|].
    eapply Forall_forall. intros y Hy.
    eapply Forall_forall in Hx; [exact Hx|].
    by eapply elem_of_sublist.
  - apply StronglySorted_cons in Hl2 as [_ Hl2]. by apply IH.
Qed.

Lemma StronglySorted_NoDup {A} (R : relation A) (l : list A) :
  (∀ x, ¬ R x x) → StronglySorted R l → NoDup l.
Proof.
  intros Hirr. induction 1 as [|x l Hl IH Hx]; constructor; [|done].
  intros Hin. eapply Forall_forall in Hx; [|exact Hin]. by eapply Hirr.
Qed.

Section sort_facts.
Context {A : Type} (lt : A → A → bool).

Lemma insert_stable_perm x l : insert_stable lt x l ≡ₚ x :: l.
Proof.
  induction l as [|y l IH]; simpl; [done|].
  destruct (lt y x); [|done].
  rewrite IH. apply Permutation_swap.
Qed.

Lemma stable_sort_perm l : stable_sort lt l ≡ₚ l.
Proof.
  induction l as [|x l IH]; simpl; [done|].
  by rewrite insert_stable_perm, IH.
Qed.

Lemma elem_of_stable_sort x l : x ∈ stable_sort lt l ↔ x ∈ l.
Proof. by rewrite stable_sort_perm. Qed.

(** Sortedness: in the output no element is strictly below an earlier one,
    provided [<] is asymmetric and its negation transitive. *)
Section sorted.
Context (lt_asym : ∀ x y, lt x y = true → lt y x = false).
Context (nlt_trans : ∀ x y z, lt y x = false → lt z y = false →
                               lt z x = false).

Lemma insert_stable_sorted x l :
  StronglySorted (λ a b, lt b a = false) l →
  StronglySorted (λ a b, lt b a = false) (insert_stable lt x l).
Proof.
  induction 1 as [|y l Hl IH Hy]; simpl.
  { repeat constructor. }
  destruct (lt y x) eqn:Hyx.
  - constructor; [done|].
    rewrite insert_stable_perm. constructor; [by apply lt_asym|done].
  - constructor; [by constructor|].
    constructor; [done|].
    eapply Forall_impl; [exact Hy|]. intros z Hz. by eapply nlt_trans.
Qed.

Lemma stable_sort_sorted l :
  StronglySorted (λ a b, lt b a = false) (stable_sort lt l).
Proof.
  induction l; simpl; [constructor|by apply insert_stable_sorted].
Qed.

End sorted.

(** Stability: a class of elements that [<] never separates keeps its
    order. *)
Section stable.
Context (P : A → Prop) `{!∀ x, Decision (P x)}.
Context (P_tied : ∀ x y, P x → P y → lt x y = false).

Lemma insert_stable_filter x l :
  filter P (insert_stable lt x l) = filter P (x :: l).
Proof.
  induction l as [|y l IH]; simpl; [done|].
  destruct (lt y x) eqn:Hyx; [|done].
  rewrite !filter_cons in *.
  destruct (decide (P y)) as [Hy|Hy], (decide (P x)) as [Hx|Hx];
    rewrite IH; try done.
  by rewrite (P_tied y x) in Hyx.
Qed.

Lemma stable_sort_filter l : filter P (stable_sort lt l) = filter P l.
Proof.
  induction l as [|x l IH]; simpl; [done|].
  by rewrite insert_stable_filter, !filter_cons, IH.
Qed.

End stable.

End sort_facts.

(** A list sorted by descending key is fixed by the order it gives to the
    elements of each key: sortedness and stability leave one result. *)
Section sort_unique.
Context {A K : Type} `{!EqDecision K} (key : A → K).
Context (le : relation K) `{!AntiSymm (=) le}.

Lemma sorted_stable_unique l1 l2 :
  StronglySorted (λ a b, le (key b) (key a)) l1 →
  StronglySorted (λ a b, le (key b) (key a)) l2 →
  (∀ k, filter (λ x, key x = k) l1 = filter (λ x, key x = k) l2) →
  l1 = l2.
Proof.
  intros Hl1. revert l2.
  induction Hl1 as [|x l1 Hl1 IH Hx]; intros l2 Hl2 Hclass.
  { destruct l2 as [|y l2]; [done|].
    specialize (Hclass (key y)). by rewrite filter_cons_True in Hclass. }
  destruct Hl2 as [|y l2 Hl2 Hy].
  { specialize (Hclass (key x)). by rewrite filter_cons_True in Hclass. }
  assert (key x = key y) as Hkey.
  { assert (x ∈ y :: l2) as Hxin.
    { eapply (list_elem_of_filter (λ z, key z = key x)).
      rewrite <- Hclass, filter_cons_True by done. left. }
    assert (y ∈ x :: l1) as Hyin.
    { eapply (list_elem_of_filter (λ z, key z = key y)).
      rewrite Hclass, filter_cons_True by done. left. }
    apply elem_of_cons in Hxin as [->|Hxin]; [done|].
    apply elem_of_cons in Hyin as [->|Hyin]; [done|].
    eapply Forall_forall in Hx; [|exact Hyin].
    eapply Forall_forall in Hy; [|exact Hxin].
    by apply (anti_symm le). }
  assert (x = y) as ->.
  { specialize (Hclass (key x)).
    rewrite !filter_cons_True in Hclass by done. congruence. }
  f_equal. apply IH; [done|]. intros k. specialize (Hclass k).
  rewrite !filter_cons in Hclass. destruct (decide (key y = k)); congruence.
Qed.

End sort_unique.

(** Python's [<] on strings against the order [String.le] of the
    statements. *)
Lemma str_ltb_false a b : String.ltb a b = false ↔ String.le b a.
Proof.
  unfold String.le, String.ltb, String.leb.
  rewrite (String.compare_antisym a b).
  destruct (String.compare b a); simpl; split; done.
Qed.

Lemma str_ltb_asym a b : String.ltb a b = true → String.ltb b a = false.
Proof.
  unfold String.ltb. rewrite (String.compare_antisym a b).
  by destruct (String.compare b a).
Qed.

Lemma str_ltb_irrefl a : String.ltb a a = false.
Proof. apply str_ltb_false. done. Qed.

(** The model of [l.sort(key=key, reverse=True)] is sorted and stable, and
    it is the only list that is both. *)
Lemma sort_by_str_key_reverse_sorted {A} (key : A → string) (l : list A) :
  StronglySorted (λ a b, String.le (key b) (key a))
                 (sort_by_str_key_reverse key l).
Proof.
  unfold sort_by_str_key_reverse.
  eapply StronglySorted_weaken; [|apply stable_sort_sorted].
  - intros a b Hab. by apply str_ltb_false in Hab.
  - intros x y. apply str_ltb_asym.
  - intros x y z Hxy Hyz. apply str_ltb_false.
    apply str_ltb_false in Hxy, Hyz. by etrans.
Qed.

Lemma sort_by_str_key_reverse_stable {A} (key : A → string) (l : list A) k :
  filter (λ x, key x = k) (sort_by_str_key_reverse key l)
  = filter (λ x, key x = k) l.
Proof.
  unfold sort_by_str_key_reverse. apply stable_sort_filter.
  intros x y -> <-. apply str_ltb_irrefl.
Qed.

Lemma sort_by_str_key_reverse_unique {A} (key : A → string) (l l' : list A) :
  StronglySorted (λ a b, String.le (key b) (key a)) l' →
  (∀ k, filter (λ x, key x = k) l' = filter (λ x, key x = k) l) →
  l' = sort_by_str_key_reverse key l.
Proof.
  intros Hsorted Hstable.
  apply (sorted_stable_unique key String.le);
    [done|apply sort_by_str_key_reverse_sorted|].
  intros k. by rewrite Hstable, sort_by_str_key_reverse_stable.
Qed.

Section slice_facts.
Context {A : Type}.
Implicit Types l : list A.

Lemma slice_to_nonneg l stop :
  0 ≤ stop → slice_to l stop = take (Z.to_nat stop) l.
Proof. intros. unfold slice_to. by rewrite bool_decide_eq_false_2 by lia. Qed.

Lemma slice_to_neg l stop :
  stop < 0 →
  slice_to l stop = take (length l - Z.to_nat (- stop)) l.
Proof.
  intros. unfold slice_to. rewrite bool_decide_eq_true_2 by done.
  f_equal. lia.
Qed.

Lemma slice_to_prefix l stop : slice_to l stop `prefix_of` l.
Proof. unfold slice_to. case_bool_decide; apply prefix_take. Qed.

Lemma slice_to_sublist l stop : slice_to l stop `sublist_of` l.
Proof. unfold slice_to. case_bool_decide; apply sublist_take. Qed.

End slice_facts.

Section dict_facts.
Context {V : Type}.
Implicit Types d : list (string * V).

Lemma dict_get_None d k : dict_get d k = None ↔ k ∉ d.*1.
Proof.
  induction d as [|[k' v'] d IH]; simpl.
  { split; [intros _; apply not_elem_of_nil|done]. }
  rewrite not_elem_of_cons, <- IH.
  case_decide as Hk; [|split; [by split|by intros [_ ?]]].
  split; [done|]. by intros [? _].
Qed.

(** Assigning to a key of the dict leaves the keys alone; assigning to a
    new key appends it. *)
Lemma dict_setitem_keys d k v :
  (dict_setitem d k v).*1 = if decide (k ∈ d.*1) then d.*1 else d.*1 ++ [k].
Proof.
  induction d as [|[k' v'] d IH]; csimpl.
  { by destruct (decide (k ∈ [])) as [?%elem_of_nil|]. }
  destruct (decide (k' = k)) as [->|Hne]; csimpl.
  - rewrite decide_True; [done|left].
  - rewrite IH. destruct (decide (k ∈ d.*1)) as [Hin|Hin].
    + rewrite decide_True; [done|by right].
    + rewrite decide_False; [done|].
      rewrite not_elem_of_cons. naive_solver.
Qed.

End dict_facts.

Lemma mapM_Ok {A B} (f : A → result B) (g : A → B) (l : list A) :
  (∀ x, x ∈ l → f x = Ok (g x)) → mapM f l = Ok (g <$> l).
Proof.
  induction l as [|x l IH]; intros Hf; simpl; [done|].
  rewrite (Hf x) by left. simpl.
  rewrite IH; [done|]. intros y Hy. apply Hf. by right.
Qed.

(** ** Facts about the index *)

Lemma group_types_lookup (strategy : Strategy) (tys : list string)
    (grouped : gmap string (list Strategy)) (label : string) :
  default [] (foldl (λ grouped strategy_type,
                       <[strategy_type :=
                           default [] (grouped !! strategy_type) ++ [strategy]]>
                         grouped) grouped tys !! label)
  = default [] (grouped !! label)
      ++ ((λ _, strategy) <$> filter (λ ty, ty = label) tys).
Proof.
  revert grouped. induction tys as [|ty tys IH]; intros grouped; simpl.
  { by rewrite app_nil_r. }
  rewrite IH, filter_cons. destruct (decide (ty = label)) as [->|Hne].
  - rewrite lookup_insert_eq. simpl. by rewrite <- app_assoc.
  - by rewrite lookup_insert_ne.
Qed.

Lemma group_fold_lookup (records : list Strategy)
    (grouped : gmap string (list Strategy)) (label : string) :
  default []
    (foldl (λ grouped strategy,
              foldl (λ grouped strategy_type,
                       <[strategy_type :=
                           default [] (grouped !! strategy_type) ++ [strategy]]>
                         grouped)
                    grouped (get_types strategy))
           grouped records !! label)
  = default [] (grouped !! label) ++ labelled label records.
Proof.
  revert grouped. induction records as [|r records IH]; intros grouped.
  { simpl. by rewrite app_nil_r. }
  cbn [foldl]. rewrite IH, group_types_lookup.
  unfold labelled. rewrite bind_cons. by rewrite <- app_assoc.
Qed.

(** The bucket of a label holds exactly the records carrying the label, in
    record order. *)
Lemma bucket_of_init (records : list Strategy) (label : string) :
  bucket_of (__init__ records) label = labelled label records.
Proof.
  unfold bucket_of, __init__, _group_strategies_by_type; simpl.
  by rewrite group_fold_lookup, lookup_empty.
Qed.

Lemma elem_of_labelled (label : string) records (strategy : Strategy) :
  strategy ∈ labelled label records ↔
  strategy ∈ records ∧ label ∈ get_types strategy.
Proof.
  unfold labelled. rewrite list_elem_of_bind. split.
  - intros (r & Hr & Hin). apply list_elem_of_fmap in Hr as (ty & -> & Hty).
    apply list_elem_of_filter in Hty as [-> Hty]. done.
  - intros [Hin Hty]. exists strategy. split; [|done].
    apply list_elem_of_fmap. exists label. split; [done|].
    by apply list_elem_of_filter.
Qed.

(** ** Facts about the stage query *)

Lemma extend_by_types_Ok (by_type : gmap string (list Strategy))
    (tys : list string) (acc : list Strategy) :
  extend_by_types by_type tys acc
  = Ok (acc ++ (tys ≫= λ label, default [] (by_type !! label))).
Proof.
  revert acc. induction tys as [|ty tys IH]; intros acc; simpl.
  { by rewrite app_nil_r. }
  unfold map_getitem. case_bool_decide as Hty.
  - destruct Hty as [bucket ->]. simpl. by rewrite IH, <- app_assoc.
  - apply eq_None_not_Some in Hty as ->. by rewrite IH.
Qed.

Lemma dedup_loop_acc l seen acc :
  dedup_loop l seen acc = acc ++ dedup_loop l seen [].
Proof.
  revert seen acc. induction l as [|x l IH]; intros seen acc; simpl.
  { by rewrite app_nil_r. }
  case_bool_decide; [|done].
  rewrite (IH _ (acc ++ [x])), (IH _ [x]). by rewrite <- app_assoc.
Qed.

Lemma dedup_loop_cons x l seen :
  dedup_loop (x :: l) seen []
  = if decide (name x ∉ seen)
    then x :: dedup_loop l ({[name x]} ∪ seen) []
    else dedup_loop l seen [].
Proof.
  cbn [dedup_loop].
  case_bool_decide; destruct (decide (name x ∉ seen)); try done.
  by rewrite dedup_loop_acc.
Qed.

Lemma first_with_name_cons x l strategy :
  first_with_name (x :: l) strategy ↔
  strategy = x ∨ (name x ≠ name strategy ∧ first_with_name l strategy).
Proof.
  split.
  - intros (i & Hi & Hfirst). destruct i as [|i]; simpl in Hi.
    { left. congruence. }
    right. split.
    + apply (Hfirst 0%nat x); [lia|done].
    + exists i. split; [done|]. intros j other Hj Hother.
      apply (Hfirst (S j)); [lia|done].
  - intros [->|[Hne (i & Hi & Hfirst)]].
    + exists 0%nat. split; [done|]. intros; lia.
    + exists (S i). split; [done|]. intros [|j] other Hj Hother.
      * simpl in Hother. congruence.
      * apply (Hfirst j); [lia|done].
Qed.

(** What the deduplication loop keeps: the records that are the first of
    their name and whose name was not seen before the loop. *)
Lemma elem_of_dedup_loop l seen strategy :
  strategy ∈ dedup_loop l seen [] ↔
  (name strategy ∉ seen) ∧ first_with_name l strategy.
Proof.
  revert seen. induction l as [|x l IH]; intros seen.
  { simpl. split; [by intros ?%elem_of_nil|].
    by intros [_ (i & Hi & _)]. }
  rewrite dedup_loop_cons, first_with_name_cons.
  destruct (decide (name x ∉ seen)) as [Hx|Hx].
  - rewrite elem_of_cons, IH, not_elem_of_union, not_elem_of_singleton.
    split.
    + intros [->|[[Hne Hs] Hf]]; [by auto|].
      split; [done|]. right. split; [congruence|done].
    + intros [Hs [->|[Hne Hf]]]; [by left|].
      right. repeat split; [congruence|done|done].
  - rewrite IH. apply dec_stable in Hx. split.
    + intros [Hs Hf]. split; [done|]. right. split; [|done].
      intros Heq. by rewrite Heq in Hx.
    + by intros [Hs [->|[_ Hf]]].
Qed.

Lemma dedup_loop_NoDup l seen : NoDup (name <$> dedup_loop l seen []).
Proof.
  revert seen. induction l as [|x l IH]; intros seen.
  { constructor. }
  rewrite dedup_loop_cons. destruct (decide (name x ∉ seen)); [|done].
  rewrite fmap_cons. constructor; [|done].
  intros (r & Hname & Hr)%list_elem_of_fmap.
  apply elem_of_dedup_loop in Hr as [Hr _].
  apply Hr, elem_of_union_l, elem_of_singleton. done.
Qed.

Lemma dedup_loop_sublist l seen : dedup_loop l seen [] `sublist_of` l.
Proof.
  revert seen. induction l as [|x l IH]; intros seen.
  { done. }
  rewrite dedup_loop_cons. destruct (decide (name x ∉ seen)).
  - by apply sublist_skip.
  - by apply sublist_cons.
Qed.

Lemma get_strategies_for_stage_unknown self stage_key limit :
  stage_of stage_key = None →
  get_strategies_for_stage self stage_key limit = Ok [].
Proof.
  unfold stage_of, get_strategies_for_stage, dict_contains. intros ->.
  by rewrite bool_decide_eq_false_2 by (by intros [? ?]).
Qed.

(** On a catalog key the query never raises: it returns the ranked bucket
    of the stage, sliced at [limit]. *)
Lemma get_strategies_for_stage_known self stage_key stage_info limit :
  stage_of stage_key = Some stage_info →
  get_strategies_for_stage self stage_key limit
  = Ok (slice_to (ranked_bucket self stage_info) limit).
Proof.
  unfold stage_of, get_strategies_for_stage, dict_contains, dict_getitem.
  intros ->. rewrite bool_decide_eq_true_2 by eauto. simpl.
  by rewrite extend_by_types_Ok.
Qed.

Lemma ranked_bucket_perm self stage_info :
  ranked_bucket self stage_info ≡ₚ unique_bucket self stage_info.
Proof. apply stable_sort_perm. Qed.

Lemma ranked_bucket_length self stage_info :
  length (ranked_bucket self stage_info)
  = length (unique_bucket self stage_info).
Proof. by rewrite ranked_bucket_perm. Qed.

Lemma ranked_bucket_sorted self stage_info :
  StronglySorted impact_ge (ranked_bucket self stage_info).
Proof.
  apply sort_by_str_key_reverse_sorted.
Qed.

(** ** Facts about the catalog *)

Lemma stage_of_keys stage_key :
  is_Some (stage_of stage_key) ↔ stage_key ∈ dict_keys FUNNEL_STAGES.
Proof.
  unfold stage_of, dict_keys. rewrite <- not_eq_None_Some, dict_get_None.
  split; [apply dec_stable|auto].
Qed.

Lemma order_of_inj a b :
  is_Some (stage_of a) → is_Some (stage_of b) →
  order_of a = order_of b → a = b.
Proof.
  rewrite !stage_of_keys. unfold dict_keys. simpl.
  rewrite !elem_of_cons, !elem_of_nil.
  intros Ha Hb.
  repeat (destruct Ha as [->|Ha]; [|]); try done;
    repeat (destruct Hb as [->|Hb]; [|]); try done.
Qed.

Lemma catalog_keys_sorted :
  StronglySorted (λ a b, order_of a < order_of b) (dict_keys FUNNEL_STAGES).
Proof. repeat (constructor; [|by repeat constructor]). constructor. Qed.

(** ** Facts about the report *)

Section sorted_by_key.
Context {A : Type} (key : A → Z).

Lemma insert_stable_decorated x l :
  insert_stable (λ a b : Z * A, bool_decide (a.1 < b.1))
                (key x, x) ((λ y, (key y, y)) <$> l)
  = (λ y, (key y, y)) <$> insert_stable (λ a b, bool_decide (key a < key b)) x l.
Proof.
  induction l as [|y l IH]; csimpl; [done|].
  case_bool_decide; [|done]. by rewrite IH.
Qed.

Lemma stable_sort_decorated l :
  stable_sort (λ a b : Z * A, bool_decide (a.1 < b.1)) ((λ y, (key y, y)) <$> l)
  = (λ y, (key y, y)) <$> stable_sort (λ a b, bool_decide (key a < key b)) l.
Proof.
  induction l as [|x l IH]; csimpl; [done|].
  by rewrite IH, insert_stable_decorated.
Qed.

(** Sorting by a key that never raises on the list is the plain stable sort
    by that key. *)
Lemma sorted_by_int_key_Ok (f : A → result Z) l :
  (∀ x, x ∈ l → f x = Ok (key x)) →
  sorted_by_int_key f l
  = Ok (stable_sort (λ a b, bool_decide (key a < key b)) l).
Proof.
  intros Hf. unfold sorted_by_int_key.
  rewrite (mapM_Ok _ (λ y, (key y, y))).
  - simpl. rewrite stable_sort_decorated, <- list_fmap_compose.
    f_equal. apply list_fmap_id.
  - intros x Hx. by rewrite (Hf x Hx).
Qed.

Lemma stable_sort_by_key_sorted l :
  StronglySorted (λ a b, key a ≤ key b)
    (stable_sort (λ a b, bool_decide (key a < key b)) l).
Proof.
  eapply StronglySorted_weaken; [|apply stable_sort_sorted].
  - intros a b Hab. apply bool_decide_eq_false in Hab. lia.
  - intros x y Hxy. apply bool_decide_eq_true in Hxy.
    apply bool_decide_eq_false. lia.
  - intros x y z Hxy Hyz.
    apply bool_decide_eq_false in Hxy, Hyz. apply bool_decide_eq_false. lia.
Qed.

End sorted_by_key.

Lemma dict_getitem_order stage_key :
  is_Some (stage_of stage_key) →
  (stage_info ← dict_getitem FUNNEL_STAGES stage_key; Ok (order stage_info))
  = Ok (order_of stage_key).
Proof.
  unfold order_of, stage_of, dict_getitem. by intros [stage_info ->].
Qed.

Lemma elem_of_dict_setitem {V} (d : list (string * V)) k v x :
  x ∈ dict_setitem d k v → x ∈ d ∨ x = (k, v).
Proof.
  induction d as [|[k' v'] d IH]; simpl.
  { intros ->%list_elem_of_singleton. by right. }
  case_decide.
  - intros [->|Hx]%elem_of_cons; [by right|left; by right].
  - intros [->|Hx]%elem_of_cons; [left; by left|].
    destruct (IH Hx) as [?|?]; [left; by right|by right].
Qed.

Lemma recommend_loop_Ok self stages limit recs :
  Forall (λ k, is_Some (stage_of k)) stages →
  ∃ report,
    recommend_loop self stages limit recs = Ok report ∧
    report.*1 = foldl add_key recs.*1 stages ∧
    ∀ k e, (k, e) ∈ report →
      (k, e) ∈ recs ∨
      ∃ stage_info, stage_of k = Some stage_info ∧
                    e = entry_of self stage_info limit.
Proof.
  revert recs. induction stages as [|k stages IH]; intros recs Hall.
  { exists recs. simpl. auto. }
  apply Forall_cons in Hall as [[stage_info Hk] Hall].
  cbn [recommend_loop]. unfold dict_getitem.
  pose proof Hk as Hk'. unfold stage_of in Hk'. rewrite Hk'. simpl.
  rewrite (get_strategies_for_stage_known _ _ _ _ Hk). simpl.
  destruct (IH (dict_setitem recs k (entry_of self stage_info limit)) Hall)
    as (report & Hrun & Hkeys & Hvals).
  exists report. split; [exact Hrun|]. split.
  - by rewrite Hkeys, dict_setitem_keys.
  - intros k' e Hin. destruct (Hvals k' e Hin) as [Hset|?]; [|by right].
    apply elem_of_dict_setitem in Hset as [?|[= -> ->]]; [by left|].
    right. eauto.
Qed.

Lemma elem_of_add_keys stages keys k :
  k ∈ foldl add_key keys stages ↔ k ∈ keys ∨ k ∈ stages.
Proof.
  revert keys. induction stages as [|s stages IH]; intros keys; simpl.
  { rewrite elem_of_nil. tauto. }
  rewrite IH, elem_of_cons. unfold add_key.
  destruct (decide (s ∈ keys)) as [Hs|Hs].
  - split; [tauto|]. intros [?|[->|?]]; auto.
  - rewrite elem_of_app, list_elem_of_singleton. tauto.
Qed.

(** Assigning the stages in ascending order to a dict whose keys are in
    strictly ascending order, all below the stages, keeps the keys in
    strictly ascending order. *)
Lemma add_keys_sorted stages keys :
  Forall (λ k, is_Some (stage_of k)) stages →
  Forall (λ k, is_Some (stage_of k)) keys →
  StronglySorted (λ a b, order_of a ≤ order_of b) stages →
  StronglySorted (λ a b, order_of a < order_of b) keys →
  (∀ a b, a ∈ keys → b ∈ stages → order_of a ≤ order_of b) →
  StronglySorted (λ a b, order_of a < order_of b) (foldl add_key keys stages).
Proof.
  revert keys. induction stages as [|s stages IH];
    intros keys Hstages Hkeys Hsorted Hks Hbelow; simpl; [done|].
  apply Forall_cons in Hstages as [Hs Hstages].
  apply StronglySorted_cons in Hsorted as [Hs_le Hsorted].
  assert (∀ b, b ∈ stages → order_of s ≤ order_of b) as Hs_le'.
  { intros b Hb. eapply Forall_forall in Hs_le; [exact Hs_le|done]. }
  unfold add_key. destruct (decide (s ∈ keys)) as [Hin|Hin].
  - apply IH; try done. intros a b Ha Hb. apply Hbelow; [done|by right].
  - apply IH; try done.
    + apply Forall_app. split; [done|]. by apply Forall_singleton.
    + apply StronglySorted_app_2; [|done|repeat constructor].
      intros a b Ha ->%list_elem_of_singleton.
      assert (order_of a ≤ order_of s) by (apply Hbelow; [done|left]).
      assert (order_of a ≠ order_of s); [|lia].
      intros Heq. apply order_of_inj in Heq; [by subst| |done].
      eapply Forall_forall in Hkeys; [exact Hkeys|done].
    + intros a b [Ha| ->%list_elem_of_singleton]%elem_of_app Hb.
      * apply Hbelow; [done|by right].
      * by apply Hs_le'.
Qed.

Lemma dict_contains_stage stage_key :
  dict_contains FUNNEL_STAGES stage_key ↔ is_Some (stage_of stage_key).
Proof. unfold dict_contains, stage_of. apply bool_decide_spec. Qed.

(** The report in closed form: it never raises, its keys are the catalog
    keys that were requested, in catalog order, and every entry is the
    entry of its stage. *)
Lemma get_funnel_recommendations_Ok self selected_stages limit :
  ∃ report,
    get_funnel_recommendations self selected_stages limit = Ok report ∧
    report.*1 = filter (λ k, k ∈ requested selected_stages)
                       (dict_keys FUNNEL_STAGES) ∧
    ∀ k e, (k, e) ∈ report →
      ∃ stage_info, stage_of k = Some stage_info ∧
                    e = entry_of self stage_info limit.
Proof.
  unfold get_funnel_recommendations. fold (requested selected_stages).
  set (filtered := filter (λ stage, dict_contains FUNNEL_STAGES stage) _).
  assert (∀ k, k ∈ filtered ↔
               k ∈ requested selected_stages ∧ is_Some (stage_of k))
    as Hfiltered.
  { intros k. unfold filtered.
    rewrite list_elem_of_filter, dict_contains_stage. tauto. }
  rewrite (sorted_by_int_key_Ok order_of); cycle 1.
  { intros x Hx. apply dict_getitem_order. by apply Hfiltered. }
  set (sorted_stages := stable_sort _ filtered).
  assert (Forall (λ k, is_Some (stage_of k)) sorted_stages) as Hall.
  { apply Forall_forall. intros k Hk.
    apply elem_of_stable_sort in Hk. by apply Hfiltered. }
  destruct (recommend_loop_Ok self sorted_stages limit [] Hall)
    as (report & Hrun & Hkeys & Hvals).
  exists report. split; [exact Hrun|]. split.
  - rewrite Hkeys. simpl.
    assert (StronglySorted (λ a b, order_of a < order_of b)
              (foldl add_key [] sorted_stages)) as Hsorted.
    { apply add_keys_sorted; try done.
      - apply stable_sort_by_key_sorted.
      - constructor.
      - by intros a b ?%elem_of_nil. }
    assert (StronglySorted (λ a b, order_of a < order_of b)
              (filter (λ k, k ∈ requested selected_stages)
                      (dict_keys FUNNEL_STAGES))) as Hcatalog.
    { eapply StronglySorted_sublist;
        [apply sublist_filter|apply catalog_keys_sorted]. }
    apply (StronglySorted_unique_strong (λ a b, order_of a < order_of b));
      [intros a b _ _ Hab Hba; simpl in *; lia|done|done|].
    apply NoDup_Permutation.
    + eapply StronglySorted_NoDup; [|exact Hsorted]. intros x; simpl; lia.
    + eapply StronglySorted_NoDup; [|exact Hcatalog]. intros x; simpl; lia.
    + intros k. rewrite elem_of_add_keys, elem_of_nil, list_elem_of_filter.
      unfold sorted_stages. rewrite elem_of_stable_sort, Hfiltered.
      rewrite stage_of_keys. tauto.
  - intros k e Hin. destruct (Hvals k e Hin) as [?%elem_of_nil|?]; done.
Qed.

(** Deduplication loses no name: a record of the input has a seen name or
    a namesake in the output. *)
Lemma dedup_loop_names l seen strategy :
  strategy ∈ l →
  name strategy ∈ seen ∨ name strategy ∈ name <$> dedup_loop l seen [].
Proof.
  intros Hin. revert seen.
  induction Hin as [x l|x y l Hin IH]; intros seen; rewrite dedup_loop_cons.
  - destruct (decide (name x ∉ seen)) as [Hx|Hx].
    + right. rewrite fmap_cons. left.
    + left. by apply dec_stable in Hx.
  - destruct (decide (name y ∉ seen)) as [Hy|Hy]; [|apply IH].
    destruct (IH ({[name y]} ∪ seen))
      as [[Heq%elem_of_singleton|?]%elem_of_union|?].
    + right. rewrite fmap_cons, Heq. left.
    + by left.
    + right. rewrite fmap_cons. by right.
Qed.

(** ** Properties of the stage query *)

Lemma elem_of_slice_ranked self stage_info limit strategy :
  strategy ∈ slice_to (ranked_bucket self stage_info) limit →
  strategy ∈ unique_bucket self stage_info.
Proof.
  intros Hin. rewrite <- ranked_bucket_perm.
  eapply elem_of_sublist; [exact Hin|apply slice_to_sublist].
Qed.

Lemma empty_impact_lowest (strategy : Strategy) (s : string) :
  impact strategy = None → String.le (get_impact strategy) s.
Proof. unfold get_impact. intros ->. simpl. by destruct s. Qed.

(** C1. For a catalog stage key and a limit of at least 0, the query returns
    a sequence sorted by impact in descending lexicographic order of the
    strings, where a record without an impact field has the empty string
    as its key, which is below or equal to every other key. *)
Theorem get_strategies_for_stage_sorted_by_impact
    self stage_key stage_info limit :
  stage_of stage_key = Some stage_info →
  0 ≤ limit →
  ∃ out,
    get_strategies_for_stage self stage_key limit = Ok out ∧
    StronglySorted impact_ge out ∧
    ∀ missing other, impact missing = None → impact_ge other missing.
Proof.
  intros Hstage _. eexists. split; [|split].
  - by apply get_strategies_for_stage_known.
  - eapply StronglySorted_sublist;
      [apply slice_to_sublist|apply ranked_bucket_sorted].
  - intros missing other Hmissing. by apply empty_impact_lowest.
Qed.

Lemma get_strategies_for_stage_sorted_by_impact_witness :
  ∃ out,
    get_strategies_for_stage sample_picker "awareness" 10 = Ok out ∧
    StronglySorted impact_ge out ∧
    ∀ missing other, impact missing = None → impact_ge other missing.
Proof.
  eapply (get_strategies_for_stage_sorted_by_impact sample_picker "awareness").
  - reflexivity.
  - lia.
Defined.

(** C2. For a catalog stage key and any limit, every record name occurs at
    most once in the result, and every returned record is the first record
    of its name in the concatenation of the stage's per-label buckets: the
    later records of that name are dropped. Unless the limit cuts the
    result short, no name of the concatenation is lost. *)
Theorem get_strategies_for_stage_unique_names
    self stage_key stage_info limit :
  stage_of stage_key = Some stage_info →
  ∃ out,
    get_strategies_for_stage self stage_key limit = Ok out ∧
    NoDup (name <$> out) ∧
    (∀ strategy, strategy ∈ out →
       first_with_name (stage_buckets self stage_info) strategy) ∧
    (Z.of_nat (length (unique_bucket self stage_info)) ≤ limit →
     ∀ strategy, strategy ∈ stage_buckets self stage_info →
       name strategy ∈ name <$> out).
Proof.
  intros Hstage. eexists. split; [|split; [|split]].
  - by apply get_strategies_for_stage_known.
  - apply (sublist_NoDup _ (name <$> ranked_bucket self stage_info)).
    + rewrite ranked_bucket_perm. apply dedup_loop_NoDup.
    + apply fmap_sublist, slice_to_sublist.
  - intros strategy Hin. apply elem_of_slice_ranked in Hin.
    by apply elem_of_dedup_loop in Hin as [_ ?].
  - intros Hlimit strategy Hin.
    rewrite slice_to_nonneg by lia.
    rewrite take_ge by (rewrite ranked_bucket_length; lia).
    rewrite ranked_bucket_perm.
    destruct (dedup_loop_names _ ∅ _ Hin) as [?%elem_of_empty|?]; done.
Qed.

Lemma get_strategies_for_stage_unique_names_witness :
  ∃ out,
    get_strategies_for_stage twice_picker "awareness" 10 = Ok out ∧
    NoDup (name <$> out) ∧
    (∀ strategy, strategy ∈ out →
       first_with_name
         (stage_buckets twice_picker awareness_info) strategy) ∧
    (Z.of_nat (length (unique_bucket twice_picker awareness_info)) ≤ 10 →
     ∀ strategy, strategy ∈ stage_buckets twice_picker awareness_info →
       name strategy ∈ name <$> out).
Proof.
  apply (get_strategies_for_stage_unique_names twice_picker "awareness").
  reflexivity.
Defined.

(** The record indexed twice under the label of the stage is returned
    once. *)
Example twice_indexed_returned_once :
  bucket_of twice_picker "Awareness" = [strategy_W; strategy_W; strategy_X] ∧
  get_strategies_for_stage twice_picker "awareness" 10
  = Ok [strategy_X; strategy_W].
Proof. split; reflexivity. Qed.

(** The records of the worked example: "Low" is above "High" in the order
    of strings, so Y is ranked before X. *)
Example worked_example_ranking :
  get_strategies_for_stage sample_picker "awareness" 10
  = Ok [strategy_Y; strategy_X].
Proof. reflexivity. Qed.

(** ** Properties of the report *)

(** C3. Whatever stage keys are requested, in whatever order, and whatever
    the per-stage limit, the entries of the report appear in strictly
    ascending catalog order; a request for referral then awareness is
    answered with awareness before referral. *)
Theorem get_funnel_recommendations_catalog_order :
  (∀ self selected_stages limit, ∃ report,
     get_funnel_recommendations self selected_stages limit = Ok report ∧
     StronglySorted (λ a b, order_of a < order_of b) report.*1) ∧
  (∀ self limit, ∃ report,
     get_funnel_recommendations
       self (SelList ["referral"; "awareness"]) limit = Ok report ∧
     report.*1 = ["awareness"; "referral"]).
Proof.
  split.
  - intros self selected_stages limit.
    destruct (get_funnel_recommendations_Ok self selected_stages limit)
      as (report & Hrun & Hkeys & _).
    exists report. split; [done|]. rewrite Hkeys.
    eapply StronglySorted_sublist;
      [apply sublist_filter|apply catalog_keys_sorted].
  - intros self limit.
    destruct (get_funnel_recommendations_Ok
                self (SelList ["referral"; "awareness"]) limit)
      as (report & Hrun & Hkeys & _).
    exists report. split; [done|]. by rewrite Hkeys.
Qed.

(** ** Properties of truncation *)

(** C4. For a catalog stage key, limit 0 gives the empty sequence; a limit
    N of at least 0 gives the first N records of the ranked bucket, hence
    at most N records, cut after sorting; and a limit of at least the size
    of the deduplicated bucket gives the whole deduplicated, sorted
    bucket. *)
Theorem get_strategies_for_stage_truncation self stage_key stage_info :
  stage_of stage_key = Some stage_info →
  get_strategies_for_stage self stage_key 0 = Ok [] ∧
  (∀ N, 0 ≤ N → ∃ out,
     get_strategies_for_stage self stage_key N = Ok out ∧
     Z.of_nat (length out) ≤ N ∧
     out = take (Z.to_nat N)
             (sort_by_str_key_reverse get_impact
                (unique_bucket self stage_info))) ∧
  (∀ N, Z.of_nat (length (unique_bucket self stage_info)) ≤ N →
     get_strategies_for_stage self stage_key N
     = Ok (sort_by_str_key_reverse get_impact
             (unique_bucket self stage_info))).
Proof.
  intros Hstage. split; [|split].
  - by rewrite (get_strategies_for_stage_known _ _ _ _ Hstage).
  - intros N HN. eexists. split; [|split].
    + by apply get_strategies_for_stage_known.
    + rewrite slice_to_nonneg, length_take by done. lia.
    + by rewrite slice_to_nonneg.
  - intros N HN. rewrite (get_strategies_for_stage_known _ _ _ _ Hstage).
    rewrite slice_to_nonneg by lia.
    rewrite take_ge; [done|]. rewrite ranked_bucket_length. lia.
Qed.

Lemma get_strategies_for_stage_truncation_witness :
  get_strategies_for_stage sample_picker "awareness" 0 = Ok [] ∧
  (∀ N, 0 ≤ N → ∃ out,
     get_strategies_for_stage sample_picker "awareness" N = Ok out ∧
     Z.of_nat (length out) ≤ N ∧
     out = take (Z.to_nat N)
             (sort_by_str_key_reverse get_impact
                (unique_bucket sample_picker awareness_info))) ∧
  (∀ N, Z.of_nat (length (unique_bucket sample_picker awareness_info)) ≤ N →
     get_strategies_for_stage sample_picker "awareness" N
     = Ok (sort_by_str_key_reverse get_impact
             (unique_bucket sample_picker awareness_info))).
Proof.
  apply (get_strategies_for_stage_truncation sample_picker "awareness").
  reflexivity.
Defined.

(** ** Unknown stage keys *)

(** C5. An unknown stage key raises nothing: the stage query returns the
    empty sequence for it, and the report builder returns a report that
    holds exactly the requested keys of the catalog, the same report as
    for the request without the unknown keys. *)
Theorem unknown_stage_keys_tolerated :
  (∀ self stage_key limit,
     stage_of stage_key = None →
     get_strategies_for_stage self stage_key limit = Ok []) ∧
  (∀ self selected_stages limit, ∃ report,
     get_funnel_recommendations self selected_stages limit = Ok report ∧
     ∀ k, k ∈ report.*1 ↔
          k ∈ requested selected_stages ∧ is_Some (stage_of k)) ∧
  (∀ self stages limit,
     get_funnel_recommendations self (SelList stages) limit
     = get_funnel_recommendations
         self (SelList (filter (λ k, is_Some (stage_of k)) stages)) limit).
Proof.
  split; [|split].
  - intros self stage_key limit. apply get_strategies_for_stage_unknown.
  - intros self selected_stages limit.
    destruct (get_funnel_recommendations_Ok self selected_stages limit)
      as (report & Hrun & Hkeys & _).
    exists report. split; [done|]. intros k.
    rewrite Hkeys, list_elem_of_filter, stage_of_keys. tauto.
  - intros self stages limit. unfold get_funnel_recommendations.
    rewrite list_filter_filter. do 2 f_equal.
    apply list_filter_iff. intros k. rewrite dict_contains_stage. tauto.
Qed.

Lemma unknown_stage_keys_tolerated_witness :
  get_strategies_for_stage sample_picker "not_a_stage" 5 = Ok [].
Proof.
  apply (proj1 unknown_stage_keys_tolerated sample_picker "not_a_stage" 5).
  reflexivity.
Defined.

(** ** Negative limits *)

(** C6, as stated, fails: with limit -1 neither operation raises. The stage
    query returns the ranked bucket of the awareness stage without its last
    record, and the report builder returns a report. *)
Lemma negative_limit_not_rejected :
  get_strategies_for_stage sample_picker "awareness" (-1) = Ok [strategy_Y] ∧
  ¬ raises (get_strategies_for_stage sample_picker "awareness" (-1)) ∧
  ¬ raises (get_funnel_recommendations sample_picker SelNone (-1)) ∧
  ¬ (∀ self stage_key selected_stages limit,
       limit < 0 →
       raises (get_strategies_for_stage self stage_key limit) ∧
       raises (get_funnel_recommendations self selected_stages limit)).
Proof.
  assert (¬ raises (get_strategies_for_stage sample_picker "awareness" (-1)))
    as Hquery by (by intros [e He]).
  split; [reflexivity|]. split; [done|]. split.
  - by intros [e He].
  - intros Hclaim.
    destruct (Hclaim sample_picker "awareness" SelNone (-1)) as [? _]; done.
Qed.

(** C6, amended. For every negative limit the stage query and the report
    builder return normally: no error is raised, and each returned sequence
    is a prefix of the ranked bucket of its stage. *)
Theorem negative_limit_returns self stage_key selected_stages limit :
  limit < 0 →
  (∃ out,
     get_strategies_for_stage self stage_key limit = Ok out ∧
     ∀ stage_info, stage_of stage_key = Some stage_info →
       out `prefix_of` ranked_bucket self stage_info) ∧
  (∃ report,
     get_funnel_recommendations self selected_stages limit = Ok report ∧
     ∀ k e, (k, e) ∈ report →
       ∃ stage_info, stage_of k = Some stage_info ∧
         rec_strategies e `prefix_of` ranked_bucket self stage_info).
Proof.
  intros _. split.
  - destruct (stage_of stage_key) as [stage_info|] eqn:Hstage.
    + eexists. split; [by apply get_strategies_for_stage_known|].
      intros ? [= <-]. apply slice_to_prefix.
    + eexists. split; [by apply get_strategies_for_stage_unknown|done].
  - destruct (get_funnel_recommendations_Ok self selected_stages limit)
      as (report & Hrun & _ & Hvals).
    exists report. split; [done|]. intros k e Hin.
    destruct (Hvals k e Hin) as (stage_info & Hstage & ->).
    exists stage_info. split; [done|]. apply slice_to_prefix.
Qed.

Lemma negative_limit_returns_witness :
  (∃ out,
     get_strategies_for_stage sample_picker "awareness" (-1) = Ok out ∧
     ∀ stage_info, stage_of "awareness" = Some stage_info →
       out `prefix_of` ranked_bucket sample_picker stage_info) ∧
  (∃ report,
     get_funnel_recommendations sample_picker SelNone (-1) = Ok report ∧
     ∀ k e, (k, e) ∈ report →
       ∃ stage_info, stage_of k = Some stage_info ∧
         rec_strategies e `prefix_of` ranked_bucket sample_picker stage_info).
Proof.
  apply (negative_limit_returns sample_picker "awareness" SelNone (-1)).
  lia.
Defined.

(** C9. For a catalog stage key and a negative limit L the stage query
    raises nothing: it returns the ranked bucket without its last
    min(|L|, size) records, which is the empty sequence once |L| reaches
    the size of the bucket. *)
Theorem get_strategies_for_stage_negative_limit
    self stage_key stage_info L :
  stage_of stage_key = Some stage_info →
  L < 0 →
  ∃ out removed,
    get_strategies_for_stage self stage_key L = Ok out ∧
    sort_by_str_key_reverse get_impact (unique_bucket self stage_info)
    = out ++ removed ∧
    length removed
    = Nat.min (Z.abs_nat L) (length (unique_bucket self stage_info)) ∧
    (Z.of_nat (length (unique_bucket self stage_info)) ≤ - L → out = []).
Proof.
  intros Hstage HL.
  exists (slice_to (ranked_bucket self stage_info) L),
         (drop (length (ranked_bucket self stage_info) - Z.to_nat (- L))
               (ranked_bucket self stage_info)).
  split; [|split; [|split]].
  - by apply get_strategies_for_stage_known.
  - rewrite slice_to_neg by done. symmetry. apply take_drop.
  - rewrite length_drop, ranked_bucket_length. lia.
  - intros Hsize. rewrite slice_to_neg by done.
    rewrite ranked_bucket_length.
    replace (_ - _)%nat with 0%nat by lia. done.
Qed.

Lemma get_strategies_for_stage_negative_limit_witness :
  ∃ out removed,
    get_strategies_for_stage sample_picker "awareness" (-1) = Ok out ∧
    sort_by_str_key_reverse get_impact
      (unique_bucket sample_picker awareness_info)
    = out ++ removed ∧
    length removed
    = Nat.min (Z.abs_nat (-1))
              (length (unique_bucket sample_picker awareness_info)) ∧
    (Z.of_nat (length (unique_bucket sample_picker awareness_info)) ≤ - -1 →
     out = []).
Proof.
  apply (get_strategies_for_stage_negative_limit sample_picker "awareness").
  - reflexivity.
  - lia.
Defined.

(** ** Stage membership *)

(** C7. On the index built from a record collection, every record the
    stage query returns for a catalog stage key is one of the records and
    carries a label of the stage; so a record with no label is never
    returned. *)
Theorem get_strategies_for_stage_labels records stage_key stage_info limit :
  stage_of stage_key = Some stage_info →
  ∃ out,
    get_strategies_for_stage (__init__ records) stage_key limit = Ok out ∧
    ∀ strategy, strategy ∈ out →
      strategy ∈ records ∧
      (∃ label, label ∈ get_types strategy ∧
                label ∈ stage_types stage_info) ∧
      get_types strategy ≠ [].
Proof.
  intros Hstage. eexists. split.
  { by apply get_strategies_for_stage_known. }
  intros strategy Hin. apply elem_of_slice_ranked in Hin.
  eapply elem_of_sublist in Hin; [|apply dedup_loop_sublist].
  unfold stage_buckets in Hin.
  apply list_elem_of_bind in Hin as (label & Hbucket & Hlabel).
  rewrite bucket_of_init in Hbucket.
  apply elem_of_labelled in Hbucket as [Hrecord Htype].
  split; [done|]. split; [by exists label|].
  intros Hnil. rewrite Hnil in Htype. by apply elem_of_nil in Htype.
Qed.

Lemma get_strategies_for_stage_labels_witness :
  ∃ out,
    get_strategies_for_stage
      (__init__ [strategy_X; strategy_Y]) "awareness" 10 = Ok out ∧
    ∀ strategy, strategy ∈ out →
      strategy ∈ [strategy_X; strategy_Y] ∧
      (∃ label, label ∈ get_types strategy ∧
                label ∈ stage_types awareness_info) ∧
      get_types strategy ≠ [].
Proof.
  apply (get_strategies_for_stage_labels
           [strategy_X; strategy_Y] "awareness" awareness_info 10).
  reflexivity.
Defined.

(** ** Stability of the ranking *)

Lemma prefix_filter {A} (P : A → Prop) `{!∀ x, Decision (P x)} (l1 l2 : list A) :
  l1 `prefix_of` l2 → filter P l1 `prefix_of` filter P l2.
Proof. intros [k ->]. rewrite filter_app. by eexists. Qed.

(** C10. The ranking is stable. For a catalog stage key and any impact key,
    the returned records with that key (for the empty key: also those
    without an impact field) are the first ones of the records with that
    key in the deduplicated bucket, in the same order, and all of them
    unless the limit cuts the result. The deduplicated bucket in turn
    follows the stage's labels in declaration order and, under each label,
    the order of the record collection. *)
Theorem get_strategies_for_stage_stable
    records stage_key stage_info limit (key : string) :
  stage_of stage_key = Some stage_info →
  ∃ out,
    get_strategies_for_stage (__init__ records) stage_key limit = Ok out ∧
    filter (λ strategy, get_impact strategy = key) out
      `prefix_of` filter (λ strategy, get_impact strategy = key)
                    (unique_bucket (__init__ records) stage_info) ∧
    (Z.of_nat (length (unique_bucket (__init__ records) stage_info)) ≤ limit →
     filter (λ strategy, get_impact strategy = key) out
     = filter (λ strategy, get_impact strategy = key)
         (unique_bucket (__init__ records) stage_info)) ∧
    unique_bucket (__init__ records) stage_info
      `sublist_of` (stage_types stage_info ≫= λ label, labelled label records).
Proof.
  intros Hstage. eexists. split; [|split; [|split]].
  - by apply get_strategies_for_stage_known.
  - etrans; [apply prefix_filter, slice_to_prefix|].
    unfold ranked_bucket. by rewrite sort_by_str_key_reverse_stable.
  - intros Hlimit. rewrite slice_to_nonneg by lia.
    rewrite take_ge by (rewrite ranked_bucket_length; lia).
    unfold ranked_bucket. by rewrite sort_by_str_key_reverse_stable.
  - unfold unique_bucket, stage_buckets.
    etrans; [apply dedup_loop_sublist|].
    apply reflexive_eq. apply list_bind_ext; [|done].
    intros label. apply bucket_of_init.
Qed.

Lemma get_strategies_for_stage_stable_witness :
  ∃ out,
    get_strategies_for_stage
      (__init__ [strategy_W; strategy_X]) "awareness" 10 = Ok out ∧
    filter (λ strategy, get_impact strategy = "") out
      `prefix_of` filter (λ strategy, get_impact strategy = "")
                    (unique_bucket (__init__ [strategy_W; strategy_X])
                                   awareness_info) ∧
    (Z.of_nat
       (length (unique_bucket (__init__ [strategy_W; strategy_X])
                              awareness_info)) ≤ 10 →
     filter (λ strategy, get_impact strategy = "") out
     = filter (λ strategy, get_impact strategy = "")
         (unique_bucket (__init__ [strategy_W; strategy_X]) awareness_info)) ∧
    unique_bucket (__init__ [strategy_W; strategy_X]) awareness_info
      `sublist_of` (stage_types awareness_info ≫=
                      λ label, labelled label [strategy_W; strategy_X]).
Proof.
  apply (get_strategies_for_stage_stable
           [strategy_W; strategy_X] "awareness" awareness_info 10 "").
  reflexivity.
Defined.

(** ** More about the index *)

Lemma labelled_nil (label : string) (records : list Strategy) :
  labelled label records = [] ↔
  ∀ strategy, strategy ∈ records → label ∉ get_types strategy.
Proof.
  split.
  - intros Hnil strategy Hin Hlabel.
    assert (strategy ∈ labelled label records) as Hbucket
      by (by apply elem_of_labelled).
    rewrite Hnil in Hbucket. by apply elem_of_nil in Hbucket.
  - intros Hnone. destruct (labelled label records) as [|x l] eqn:Heq; [done|].
    assert (x ∈ labelled label records) as Hx by (rewrite Heq; left).
    apply elem_of_labelled in Hx as [Hin Hlabel]. by destruct (Hnone x Hin).
Qed.

Lemma group_types_None (strategy : Strategy) (tys : list string)
    (grouped : gmap string (list Strategy)) (label : string) :
  foldl (λ grouped strategy_type,
           <[strategy_type :=
               default [] (grouped !! strategy_type) ++ [strategy]]>
             grouped) grouped tys !! label = None ↔
  grouped !! label = None ∧ label ∉ tys.
Proof.
  revert grouped. induction tys as [|ty tys IH]; intros grouped; simpl.
  { split; [intros ?; split; [done|apply not_elem_of_nil]|by intros [? _]]. }
  rewrite IH, not_elem_of_cons. destruct (decide (ty = label)) as [->|Hne].
  - rewrite lookup_insert_eq. split; [by intros [? _]|by intros [_ [? _]]].
  - rewrite lookup_insert_ne by done. split.
    + intros [? ?]. by repeat split.
    + intros [? [_ ?]]. by split.
Qed.

Lemma group_fold_None (records : list Strategy)
    (grouped : gmap string (list Strategy)) (label : string) :
  foldl (λ grouped strategy,
           foldl (λ grouped strategy_type,
                    <[strategy_type :=
                        default [] (grouped !! strategy_type) ++ [strategy]]>
                      grouped)
                 grouped (get_types strategy))
        grouped records !! label = None ↔
  grouped !! label = None ∧
  ∀ strategy, strategy ∈ records → label ∉ get_types strategy.
Proof.
  revert grouped. induction records as [|r records IH]; intros grouped.
  { simpl. split; [intros ?; split; [done|]|by intros [? _]].
    by intros ? ?%elem_of_nil. }
  cbn [foldl]. rewrite IH, group_types_None. split.
  - intros [[Hg Hr] Hrest]. split; [done|].
    intros strategy [->|Hin]%elem_of_cons; [done|by apply Hrest].
  - intros [Hg Hall]. split; [split; [done|]|].
    + apply Hall. left.
    + intros strategy Hin. apply Hall. by right.
Qed.

(** X1. The index built by [_group_strategies_by_type] has a key exactly for
    the labels that some record carries; its bucket lists the records
    carrying the label in record order, once per occurrence of the label
    among the record's types. There is no empty bucket. *)
Theorem group_strategies_by_type_lookup records label :
  _group_strategies_by_type records !! label
  = if decide (Exists (λ strategy, label ∈ get_types strategy) records)
    then Some (labelled label records)
    else None.
Proof.
  unfold _group_strategies_by_type.
  destruct (decide _) as [Hex|Hnone].
  - pose proof (group_fold_lookup records ∅ label) as Hlookup.
    rewrite lookup_empty in Hlookup. simpl in Hlookup.
    destruct (foldl _ ∅ records !! label) as [bucket|] eqn:Hbucket.
    { simpl in Hlookup. by rewrite Hlookup. }
    apply group_fold_None in Hbucket as [_ Hall].
    apply Exists_exists in Hex as (strategy & Hin & Hlabel).
    by destruct (Hall strategy Hin).
  - apply group_fold_None. split; [apply lookup_empty|].
    intros strategy Hin Hlabel. apply Hnone, Exists_exists. eauto.
Qed.

(** ** More about the stage query *)

Lemma slice_to_mono {A} (l : list A) (m n : Z) :
  0 ≤ m ≤ n ∨ m ≤ n < 0 → slice_to l m `prefix_of` slice_to l n.
Proof.
  intros [[Hm Hn]|[Hm Hn]].
  - rewrite !slice_to_nonneg by lia.
    replace (take (Z.to_nat m) l)
      with (take (Z.to_nat m) (take (Z.to_nat n) l)); [apply prefix_take|].
    rewrite take_take. f_equal. lia.
  - rewrite !slice_to_neg by lia.
    replace (take (length l - Z.to_nat (- m)) l)
      with (take (length l - Z.to_nat (- m))
              (take (length l - Z.to_nat (- n)) l)); [apply prefix_take|].
    rewrite take_take. f_equal. lia.
Qed.

(** X2. Raising the limit only appends: for two limits of the same sign,
    the result for the smaller one is a prefix of the result for the larger
    one, for any stage key. *)
Theorem get_strategies_for_stage_limit_mono self stage_key m n :
  0 ≤ m ≤ n ∨ m ≤ n < 0 →
  ∃ out_m out_n,
    get_strategies_for_stage self stage_key m = Ok out_m ∧
    get_strategies_for_stage self stage_key n = Ok out_n ∧
    out_m `prefix_of` out_n.
Proof.
  intros Hmn. destruct (stage_of stage_key) as [stage_info|] eqn:Hstage.
  - exists (slice_to (ranked_bucket self stage_info) m),
           (slice_to (ranked_bucket self stage_info) n).
    split; [by apply get_strategies_for_stage_known|].
    split; [by apply get_strategies_for_stage_known|].
    by apply slice_to_mono.
  - exists [], []. by rewrite !get_strategies_for_stage_unknown.
Qed.

Lemma get_strategies_for_stage_limit_mono_witness :
  ∃ out_m out_n,
    get_strategies_for_stage sample_picker "awareness" 1 = Ok out_m ∧
    get_strategies_for_stage sample_picker "awareness" 2 = Ok out_n ∧
    out_m `prefix_of` out_n.
Proof.
  apply (get_strategies_for_stage_limit_mono sample_picker "awareness" 1 2).
  left. lia.
Defined.

(** Limits of different sign are not ordered this way: the bucket of two
    records gives one record for -1 and none for 0. *)
Example get_strategies_for_stage_limit_sign :
  get_strategies_for_stage sample_picker "awareness" (-1) = Ok [strategy_Y] ∧
  get_strategies_for_stage sample_picker "awareness" 0 = Ok [].
Proof. split; reflexivity. Qed.

Lemma catalog_single_label stage_key stage_info :
  stage_of stage_key = Some stage_info →
  ∃ label, stage_types stage_info = [label].
Proof.
  intros Hstage.
  assert (stage_key ∈ dict_keys FUNNEL_STAGES) as Hkey
    by (apply stage_of_keys; eauto).
  unfold dict_keys in Hkey. simpl in Hkey.
  rewrite !elem_of_cons, elem_of_nil in Hkey.
  repeat (destruct Hkey as [->|Hkey]; [injection Hstage as <-; eauto|]).
  done.
Qed.

Lemma dedup_loop_repeated (strategy : Strategy) {B} (l : list B) rest seen :
  name strategy ∈ seen →
  dedup_loop (((λ _, strategy) <$> l) ++ rest) seen []
  = dedup_loop rest seen [].
Proof.
  intros Hseen. induction l as [|x l IH]; [done|].
  rewrite fmap_cons. cbn [app]. rewrite dedup_loop_cons.
  by rewrite decide_False by (by intros ?).
Qed.

(** On records with distinct names whose names are all unseen, the
    deduplication of a bucket keeps every record of the bucket once, in
    record order. *)
Lemma dedup_loop_labelled label records seen :
  NoDup (name <$> records) →
  (∀ strategy, strategy ∈ records → name strategy ∉ seen) →
  dedup_loop (labelled label records) seen []
  = filter (λ strategy, label ∈ get_types strategy) records.
Proof.
  revert seen. induction records as [|r records IH]; intros seen Hnodup Hseen.
  { done. }
  rewrite fmap_cons in Hnodup. apply NoDup_cons in Hnodup as [Hr Hnodup].
  unfold labelled. rewrite bind_cons. fold (labelled label records).
  rewrite filter_cons.
  destruct (filter (λ ty, ty = label) (get_types r)) as [|ty tys] eqn:Htys.
  - rewrite decide_False; cycle 1.
    { intros Hlabel.
      assert (label ∈ filter (λ ty, ty = label) (get_types r)) as Hin
        by (by apply list_elem_of_filter).
      rewrite Htys in Hin. by apply elem_of_nil in Hin. }
    simpl. apply IH; [done|]. intros strategy Hin. apply Hseen. by right.
  - rewrite decide_True; cycle 1.
    { assert (ty ∈ filter (λ ty, ty = label) (get_types r)) as Hin
        by (rewrite Htys; left).
      by apply list_elem_of_filter in Hin as [-> ?]. }
    rewrite fmap_cons. cbn [app]. rewrite dedup_loop_cons.
    rewrite decide_True by (apply Hseen; left).
    rewrite dedup_loop_repeated
      by (apply elem_of_union_l, elem_of_singleton; done).
    f_equal. apply IH; [done|].
    intros strategy Hin.
    rewrite not_elem_of_union, not_elem_of_singleton. split.
    + intros Heq. apply Hr. rewrite <- Heq.
      apply list_elem_of_fmap. eauto.
    + apply Hseen. by right.
Qed.

(** X3. On a record collection with distinct names, the stage query for a
    catalog stage returns the records that carry the stage's label, taken
    in record order, stably sorted by descending impact and cut at the
    limit: deduplication removes no record but a repeated label. *)
Theorem get_strategies_for_stage_distinct_names
    records stage_key stage_info limit :
  stage_of stage_key = Some stage_info →
  NoDup (name <$> records) →
  get_strategies_for_stage (__init__ records) stage_key limit
  = Ok (slice_to
          (sort_by_str_key_reverse get_impact
             (filter (carries_label_of stage_info) records))
          limit).
Proof.
  intros Hstage Hnodup.
  rewrite (get_strategies_for_stage_known _ _ _ _ Hstage).
  unfold ranked_bucket. do 3 f_equal. unfold unique_bucket, stage_buckets.
  destruct (catalog_single_label _ _ Hstage) as [label Hlabel].
  rewrite Hlabel. csimpl. rewrite app_nil_r, bucket_of_init.
  rewrite dedup_loop_labelled;
    [|done|intros; apply not_elem_of_empty].
  apply list_filter_iff. intros strategy.
  unfold carries_label_of. rewrite Hlabel, Exists_cons, Exists_nil. tauto.
Qed.

Lemma get_strategies_for_stage_distinct_names_witness :
  get_strategies_for_stage (__init__ [strategy_W; strategy_X]) "awareness" 1
  = Ok (slice_to
          (sort_by_str_key_reverse get_impact
             (filter (carries_label_of awareness_info)
                     [strategy_W; strategy_X]))
          1).
Proof.
  apply (get_strategies_for_stage_distinct_names
           [strategy_W; strategy_X] "awareness" awareness_info 1).
  - reflexivity.
  - apply (bool_decide_unpack _). reflexivity.
Defined.

Lemma bind_eq_nil {A B} (f : A → list B) (l : list A) :
  l ≫= f = [] ↔ ∀ x, x ∈ l → f x = [].
Proof.
  induction l as [|x l IH]; csimpl.
  { split; [by intros _ ? ?%elem_of_nil|done]. }
  rewrite app_nil, IH. split.
  - intros [Hx Hl] y [->|Hy]%elem_of_cons; auto.
  - intros Hall. split; [apply Hall; left|]. intros y Hy. apply Hall. by right.
Qed.

Lemma dedup_loop_nil l : dedup_loop l ∅ [] = [] ↔ l = [].
Proof.
  split; [|by intros ->]. destruct l as [|x l]; [done|].
  rewrite dedup_loop_cons, decide_True by apply not_elem_of_empty. done.
Qed.

Lemma stage_buckets_nil records stage_info :
  stage_buckets (__init__ records) stage_info = [] ↔
  ∀ strategy, strategy ∈ records → ¬ carries_label_of stage_info strategy.
Proof.
  unfold stage_buckets, carries_label_of. rewrite bind_eq_nil. split.
  - intros Hnil strategy Hin (label & Hlabel & Hcarries)%Exists_exists.
    specialize (Hnil label Hlabel). rewrite bucket_of_init in Hnil.
    by eapply labelled_nil in Hnil.
  - intros Hnone label Hlabel. rewrite bucket_of_init.
    apply labelled_nil. intros strategy Hin Hcarries.
    apply (Hnone strategy Hin), Exists_exists. eauto.
Qed.

(** X4. With a limit of at least 1, the stage query for a catalog stage
    returns the empty sequence exactly when no record of the collection
    carries a label of the stage; so it does for every stage when the
    collection is empty. *)
Theorem get_strategies_for_stage_empty records stage_key stage_info limit :
  stage_of stage_key = Some stage_info →
  0 < limit →
  get_strategies_for_stage (__init__ records) stage_key limit = Ok [] ↔
  ∀ strategy, strategy ∈ records → ¬ carries_label_of stage_info strategy.
Proof.
  intros Hstage Hlimit.
  rewrite (get_strategies_for_stage_known _ _ _ _ Hstage).
  rewrite <- stage_buckets_nil, <- dedup_loop_nil.
  fold (unique_bucket (__init__ records) stage_info).
  rewrite slice_to_nonneg by lia.
  rewrite <- (length_zero_iff_nil (unique_bucket _ _)).
  rewrite <- ranked_bucket_length. split.
  - intros [= Hnil]. apply (f_equal length) in Hnil.
    rewrite length_take in Hnil. simpl in Hnil. lia.
  - intros Hlen. apply length_zero_iff_nil in Hlen. by rewrite Hlen, take_nil.
Qed.

Lemma get_strategies_for_stage_empty_witness :
  get_strategies_for_stage (__init__ []) "awareness" 10 = Ok [] ↔
  ∀ strategy, strategy ∈ [] → ¬ carries_label_of awareness_info strategy.
Proof.
  apply (get_strategies_for_stage_empty [] "awareness" awareness_info 10).
  - reflexivity.
  - lia.
Defined.

Lemma filter_label_nil (label : string) (tys : list string) :
  label ∉ tys → filter (λ ty, ty = label) tys = [].
Proof.
  intros Hlabel. destruct (filter _ tys) as [|ty l] eqn:Heq; [done|].
  assert (ty ∈ filter (λ ty, ty = label) tys) as Hin by (rewrite Heq; left).
  by apply list_elem_of_filter in Hin as [-> ?].
Qed.

Lemma labelled_insert label l1 strategy l2 :
  label ∉ get_types strategy →
  labelled label (l1 ++ strategy :: l2) = labelled label (l1 ++ l2).
Proof.
  intros Hlabel. unfold labelled. rewrite !bind_app, bind_cons.
  by rewrite filter_label_nil.
Qed.

Lemma bind_ext_elem_of {A B} (f g : A → list B) (l : list A) :
  (∀ x, x ∈ l → f x = g x) → l ≫= f = l ≫= g.
Proof.
  induction l as [|x l IH]; intros Hfg; csimpl; [done|].
  rewrite (Hfg x) by left. f_equal. apply IH. intros y Hy. apply Hfg. by right.
Qed.

(** X5. A record that carries no label of a stage has no influence on the
    result for that stage: inserting it anywhere into the collection, or
    removing it, leaves the stage query unchanged. *)
Theorem get_strategies_for_stage_unrelated_record
    l1 strategy l2 stage_key stage_info limit :
  stage_of stage_key = Some stage_info →
  ¬ carries_label_of stage_info strategy →
  get_strategies_for_stage (__init__ (l1 ++ strategy :: l2)) stage_key limit
  = get_strategies_for_stage (__init__ (l1 ++ l2)) stage_key limit.
Proof.
  intros Hstage Hnone.
  rewrite !(get_strategies_for_stage_known _ _ _ _ Hstage).
  unfold ranked_bucket, unique_bucket, stage_buckets. do 4 f_equal.
  apply bind_ext_elem_of. intros label Hlabel.
  rewrite !bucket_of_init. apply labelled_insert.
  intros Hcarries. apply Hnone, Exists_exists. eauto.
Qed.

Lemma get_strategies_for_stage_unrelated_record_witness :
  get_strategies_for_stage
    (__init__ ([] ++ strategy_X :: [strategy_Y])) "retention" 10
  = get_strategies_for_stage (__init__ ([] ++ [strategy_Y])) "retention" 10.
Proof.
  eapply (get_strategies_for_stage_unrelated_record
            [] strategy_X [strategy_Y] "retention").
  - reflexivity.
  - apply (bool_decide_unpack _). reflexivity.
Defined.

(** ** More about the report *)

Lemma assoc_ext {V} (P : string → V → Prop) (l1 l2 : list (string * V)) :
  (∀ k v v', P k v → P k v' → v = v') →
  l1.*1 = l2.*1 →
  (∀ k v, (k, v) ∈ l1 → P k v) →
  (∀ k v, (k, v) ∈ l2 → P k v) →
  l1 = l2.
Proof.
  intros Hfun. revert l2.
  induction l1 as [|[k1 v1] l1 IH]; intros [|[k2 v2] l2] Hkeys H1 H2;
    try done.
  injection Hkeys as -> Hkeys. f_equal.
  - f_equal. apply (Hfun k2); [apply H1|apply H2]; left.
  - apply IH; [done| |].
    + intros k v Hin. apply H1. by right.
    + intros k v Hin. apply H2. by right.
Qed.

Lemma filter_ext_elem_of {A} (P Q : A → Prop)
    `{!∀ x, Decision (P x), !∀ x, Decision (Q x)} (l : list A) :
  (∀ x, x ∈ l → P x ↔ Q x) → filter P l = filter Q l.
Proof.
  induction l as [|x l IH]; intros HPQ; [done|].
  rewrite !filter_cons.
  assert (P x ↔ Q x) as Hx by (apply HPQ; left).
  rewrite IH by (intros y Hy; apply HPQ; by right).
  destruct (decide (P x)), (decide (Q x)); tauto.
Qed.

(** X6. Every entry of the report belongs to a catalog stage and is composed
    of that stage's name and description, the result of the stage query
    for that key with the per-stage limit, and the length of that result
    as count; with a limit of at least 0 the count lies between 0 and the
    limit. *)
Theorem get_funnel_recommendations_entries self selected_stages limit :
  ∃ report,
    get_funnel_recommendations self selected_stages limit = Ok report ∧
    ∀ k e, (k, e) ∈ report →
      ∃ stage_info,
        stage_of k = Some stage_info ∧
        rec_stage_name e = stage_name stage_info ∧
        rec_description e = stage_description stage_info ∧
        get_strategies_for_stage self k limit = Ok (rec_strategies e) ∧
        count e = Z.of_nat (length (rec_strategies e)) ∧
        (0 ≤ limit → 0 ≤ count e ≤ limit).
Proof.
  destruct (get_funnel_recommendations_Ok self selected_stages limit)
    as (report & Hrun & _ & Hvals).
  exists report. split; [done|]. intros k e Hin.
  destruct (Hvals k e Hin) as (stage_info & Hstage & ->).
  exists stage_info. repeat split; try done.
  - by apply get_strategies_for_stage_known.
  - simpl. lia.
  - simpl. rewrite slice_to_nonneg, length_take by done. lia.
Qed.

(** X7. The report depends on the request only through the set of catalog
    keys it names: two requests that name the same catalog keys, in any
    order, with any repetitions and any unknown keys, get the same
    report. *)
Theorem get_funnel_recommendations_request_set
    self selected1 selected2 limit :
  (∀ k, is_Some (stage_of k) →
        k ∈ requested selected1 ↔ k ∈ requested selected2) →
  get_funnel_recommendations self selected1 limit
  = get_funnel_recommendations self selected2 limit.
Proof.
  intros Hsame.
  destruct (get_funnel_recommendations_Ok self selected1 limit)
    as (report1 & -> & Hkeys1 & Hvals1).
  destruct (get_funnel_recommendations_Ok self selected2 limit)
    as (report2 & -> & Hkeys2 & Hvals2).
  f_equal.
  apply (assoc_ext (λ k e, ∃ stage_info,
                      stage_of k = Some stage_info ∧
                      e = entry_of self stage_info limit)); try done.
  - intros k e e' (info & Hinfo & ->) (info' & Hinfo' & ->). congruence.
  - rewrite Hkeys1, Hkeys2. apply filter_ext_elem_of.
    intros k Hk. apply Hsame. by apply stage_of_keys.
Qed.

Lemma get_funnel_recommendations_request_set_witness :
  get_funnel_recommendations
    sample_picker (SelList ["retention"; "nowhere"; "awareness"; "retention"]) 3
  = get_funnel_recommendations
      sample_picker (SelList ["awareness"; "retention"]) 3.
Proof.
  apply get_funnel_recommendations_request_set.
  intros k Hk%stage_of_keys. unfold dict_keys in Hk. simpl in Hk.
  rewrite !elem_of_cons, elem_of_nil in Hk.
  repeat (destruct Hk as [->|Hk];
          [apply (bool_decide_unpack _); reflexivity|]).
  destruct Hk.
Defined.

(** X8. Without a selection ([None], as [main] asks) the report has the six
    stages of the catalog, from awareness to referral, whatever the index
    holds and whatever the limit; it is the report of any request that
    names all six keys. *)
Theorem get_funnel_recommendations_all_stages self limit :
  ∃ report,
    get_funnel_recommendations self SelNone limit = Ok report ∧
    report.*1 = ["awareness"; "acquisition"; "activation";
                 "revenue"; "retention"; "referral"] ∧
    ∀ stages,
      (∀ k, is_Some (stage_of k) → k ∈ stages) →
      get_funnel_recommendations self (SelList stages) limit = Ok report.
Proof.
  destruct (get_funnel_recommendations_Ok self SelNone limit)
    as (report & Hrun & Hkeys & Hvals).
  exists report. split; [done|]. split; [by rewrite Hkeys|].
  intros stages Hall.
  destruct (get_funnel_recommendations_Ok self (SelList stages) limit)
    as (report' & -> & Hkeys' & Hvals').
  f_equal.
  apply (assoc_ext (λ k e, ∃ stage_info,
                      stage_of k = Some stage_info ∧
                      e = entry_of self stage_info limit)); try done.
  - intros k e e' (info & Hinfo & ->) (info' & Hinfo' & ->). congruence.
  - rewrite Hkeys, Hkeys'. apply filter_ext_elem_of.
    intros k Hk. unfold requested.
    split; intros _; [exact Hk|by apply Hall, stage_of_keys].
Qed.

(** ** The stage selection of the interactive mode *)

Lemma first_stage_with_order_Some num stage_key :
  first_stage_with_order FUNNEL_STAGES num = Some stage_key ↔
  is_Some (stage_of stage_key) ∧ order_of stage_key = num.
Proof.
  split.
  - simpl. repeat case_bool_decide; intros [= <-]; by split; [eexists|].
  - intros [Hkey <-]. apply stage_of_keys in Hkey.
    unfold dict_keys in Hkey. simpl in Hkey.
    rewrite !elem_of_cons, elem_of_nil in Hkey.
    repeat (destruct Hkey as [->|Hkey]; [reflexivity|]). done.
Qed.

Lemma first_stage_with_order_None num :
  first_stage_with_order FUNNEL_STAGES num = None ↔ ¬ (1 ≤ num ≤ 6).
Proof.
  simpl. repeat case_bool_decide; simpl in *; split; try done; try lia.
Qed.

Lemma elem_of_select_stages selected_numbers selected_stages stage_key :
  stage_key ∈ select_stages selected_numbers selected_stages ↔
  stage_key ∈ selected_stages ∨
  ∃ num, num ∈ selected_numbers ∧
         first_stage_with_order FUNNEL_STAGES num = Some stage_key.
Proof.
  revert selected_stages.
  induction selected_numbers as [|num nums IH]; intros selected_stages.
  { simpl. split; [by left|]. by intros [?|(? & ?%elem_of_nil & _)]. }
  cbn [select_stages].
  destruct (first_stage_with_order FUNNEL_STAGES num) as [k|] eqn:Hnum;
    rewrite IH; [rewrite elem_of_app, list_elem_of_singleton|]; split.
  - intros [[? | ->]|(n & Hn & Hk)]; [by left| |].
    + right. exists num. split; [left|done].
    + right. exists n. split; [by right|done].
  - intros [?|(n & [-> | Hn]%elem_of_cons & Hk)]; [by left; left| |].
    + left. right. congruence.
    + right. eauto.
  - intros [?|(n & Hn & Hk)]; [by left|].
    right. exists n. split; [by right|done].
  - intros [?|(n & [-> | Hn]%elem_of_cons & Hk)]; [by left|congruence|].
    right. eauto.
Qed.

Lemma select_stages_elem selected_numbers stage_key :
  stage_key ∈ select_stages selected_numbers [] ↔
  is_Some (stage_of stage_key) ∧ order_of stage_key ∈ selected_numbers.
Proof.
  rewrite elem_of_select_stages. split.
  - intros [?%elem_of_nil|(num & Hnum & Hk)]; [done|].
    apply first_stage_with_order_Some in Hk as [? <-]. done.
  - intros [Hkey Horder]. right. exists (order_of stage_key).
    split; [done|]. by apply first_stage_with_order_Some.
Qed.

Lemma select_stages_nil selected_numbers :
  select_stages selected_numbers [] = [] ↔
  ∀ num, num ∈ selected_numbers → ¬ (1 ≤ num ≤ 6).
Proof.
  split.
  - intros Hnil num Hnum Hrange.
    destruct (first_stage_with_order FUNNEL_STAGES num) as [k|] eqn:Hk.
    + assert (k ∈ select_stages selected_numbers []) as Hin.
      { apply elem_of_select_stages. right. eauto. }
      rewrite Hnil in Hin. by apply elem_of_nil in Hin.
    + by apply first_stage_with_order_None in Hk.
  - intros Hnone.
    destruct (select_stages selected_numbers []) as [|k l] eqn:Hsel; [done|].
    assert (k ∈ select_stages selected_numbers []) as Hin
      by (rewrite Hsel; left).
    apply elem_of_select_stages in Hin as [?%elem_of_nil|(num & Hnum & Hk)];
      [done|].
    assert (first_stage_with_order FUNNEL_STAGES num ≠ None) as Hsome
      by congruence.
    rewrite first_stage_with_order_None in Hsome.
    destruct (Hsome (Hnone num Hnum)).
Qed.

(** X9. The stages selected for the numbers of a choice are the catalog
    stages whose order is one of the numbers; a number outside 1..6 selects
    nothing, and the selection is empty, which the interactive mode rejects
    as an invalid choice, exactly when no number lies in 1..6. *)
Theorem select_stages_by_order selected_numbers :
  (∀ stage_key,
     stage_key ∈ select_stages selected_numbers [] ↔
     is_Some (stage_of stage_key) ∧ order_of stage_key ∈ selected_numbers) ∧
  (select_stages selected_numbers [] = [] ↔
   ∀ num, num ∈ selected_numbers → ¬ (1 ≤ num ≤ 6)).
Proof.
  split; [intros stage_key; apply select_stages_elem|apply select_stages_nil].
Qed.

(** X10. For a choice of numbers of which one lies in 1..6, the interactive
    mode obtains a report without error: its stages are the catalog stages
    whose order was chosen, in funnel order, each once, however the numbers
    were ordered or repeated, and each stage has at most five strategies.
    For a choice of numbers that are all outside 1..6 no report is asked
    for. *)
Theorem recommendations_for_choice_numbers self selected_numbers :
  if decide (Exists (λ num, 1 ≤ num ≤ 6) selected_numbers)
  then ∃ report,
         recommendations_for_choice self (ChoiceNumbers selected_numbers)
         = Some (Ok report) ∧
         report.*1 = filter (λ k, order_of k ∈ selected_numbers)
                            (dict_keys FUNNEL_STAGES) ∧
         ∀ k e, (k, e) ∈ report → (length (rec_strategies e) ≤ 5)%nat
  else recommendations_for_choice self (ChoiceNumbers selected_numbers) = None.
Proof.
  unfold recommendations_for_choice.
  destruct (decide _) as [Hsome|Hnone].
  - rewrite bool_decide_eq_false_2; cycle 1.
    { rewrite select_stages_nil. intros Hall.
      apply Exists_exists in Hsome as (num & Hnum & Hrange).
      by destruct (Hall num Hnum). }
    destruct (get_funnel_recommendations_Ok
                self (SelList (select_stages selected_numbers []))
                default_strategies_per_stage)
      as (report & -> & Hkeys & Hvals).
    exists report. split; [done|]. split.
    + rewrite Hkeys. apply filter_ext_elem_of. intros k Hk.
      unfold requested. rewrite select_stages_elem, stage_of_keys. tauto.
    + intros k e Hin. destruct (Hvals k e Hin) as (info & _ & ->).
      simpl. unfold default_strategies_per_stage.
      rewrite slice_to_nonneg, length_take by done. lia.
  - rewrite bool_decide_eq_true_2; [done|].
    apply select_stages_nil. intros num Hnum Hrange.
    apply Hnone, Exists_exists. eauto.
Qed.

(** The choice 3,1,3,9 selects activation, awareness and activation again;
    the report lists awareness and activation. *)
Example choice_3_1_3_9 :
  select_stages [3; 1; 3; 9] [] = ["activation"; "awareness"; "activation"] ∧
  ∃ report,
    recommendations_for_choice sample_picker (ChoiceNumbers [3; 1; 3; 9])
    = Some (Ok report) ∧
    report.*1 = ["awareness"; "activation"].
Proof. split; [reflexivity|]. eexists. split; reflexivity. Qed.


(** ** Console output *)

Section console_facts.
Context {A : Type} (body : A → run).

Lemma seq_skip_r (r : run) : seq r skip = r.
Proof.
  destruct r as [out [e|]]; unfold seq; simpl; [done|].
  by rewrite app_nil_r.
Qed.

Lemma seq_assoc (r1 r2 r3 : run) : seq (seq r1 r2) r3 = seq r1 (seq r2 r3).
Proof.
  destruct r1 as [o1 [e1|]], r2 as [o2 [e2|]], r3 as [o3 e3];
    unfold seq; simpl; try done.
  by rewrite app_assoc.
Qed.

Lemma for_each_app l1 l2 :
  for_each body (l1 ++ l2) = seq (for_each body l1) (for_each body l2).
Proof.
  induction l1 as [|x l1 IH]; simpl.
  { by destruct (for_each body l2). }
  by rewrite IH, seq_assoc.
Qed.

Lemma for_each_ok l :
  (∀ x, x ∈ l → (body x).2 = None) → (for_each body l).2 = None.
Proof.
  induction l as [|x l IH]; intros Hok; simpl; [done|].
  unfold seq. rewrite (Hok x) by left. simpl.
  apply IH. intros y Hy. apply Hok. by right.
Qed.

(** A loop stops at the first element whose body raises; what the elements
    before it printed stays printed. *)
Lemma for_each_raise l1 x l2 out e :
  (∀ y, y ∈ l1 → (body y).2 = None) →
  body x = (out, Some e) →
  for_each body (l1 ++ x :: l2) = ((for_each body l1).1 ++ out, Some e).
Proof.
  intros Hok Hx. rewrite for_each_app. unfold seq at 1.
  rewrite for_each_ok by done. simpl. by rewrite Hx.
Qed.

End console_facts.

Lemma print_strategy_ok i strategy : (print_strategy i strategy).2 = None.
Proof.
  unfold print_strategy.
  destruct (impact strategy) as [s|], (effort_hours strategy) as [h|];
    repeat case_bool_decide; done.
Qed.

Lemma stage_block_ok stage_key stage_info (data : Recommendation) :
  stage_of stage_key = Some stage_info →
  (match dict_getitem FUNNEL_STAGES stage_key with
   | Raise e => raise (Raised e)
   | Ok stage_info =>
       seq (print (nl +:+ pretty (order stage_info) +:+ ". "
                     +:+ rec_stage_name data))
       (seq (print (str_mul "-" 60))
       (seq (print ("📝 " +:+ rec_description data))
       (seq (print ("📊 Найдено стратегий: " +:+ pretty (count data) +:+ nl))
            (for_each (λ numbered : Z * Strategy,
                         print_strategy numbered.1 numbered.2)
                      (enumerate (rec_strategies data) 1)))))
   end).2 = None.
Proof.
  unfold stage_of, dict_getitem. intros ->. unfold seq. simpl.
  apply for_each_ok. intros [i strategy] _. apply print_strategy_ok.
Qed.

(** When a run of [print_recommendations] ends normally. *)
Lemma print_recommendations_ok recommendations :
  Forall (λ item, is_Some (stage_of item.1)) recommendations →
  (print_recommendations recommendations).2 = None.
Proof.
  intros Hall. unfold print_recommendations, seq. simpl.
  apply for_each_ok. intros [k data] Hin.
  eapply Forall_forall in Hall; [|exact Hin]. destruct Hall as [info Hinfo].
  by apply (stage_block_ok k info data).
Qed.

(** X11. Printing the report that [get_funnel_recommendations] returned
    never raises: every key of the report is a key of the catalog, so the
    subscript of line 174 finds its stage. *)
Theorem print_recommendations_of_report self selected_stages limit :
  ∃ report,
    get_funnel_recommendations self selected_stages limit = Ok report ∧
    (print_recommendations report).2 = None.
Proof.
  destruct (get_funnel_recommendations_Ok self selected_stages limit)
    as (report & Hrun & _ & Hvals).
  exists report. split; [done|].
  apply print_recommendations_ok, Forall_forall. intros [k e] Hin.
  destruct (Hvals k e Hin) as (info & Hinfo & _). simpl. eauto.
Qed.

(** X12. On a dict with a key outside the catalog, [print_recommendations]
    raises [KeyError] for the first such key: the entries before it are
    printed in full, nothing of that entry or of a later one is. *)
Theorem print_recommendations_foreign_key before stage_key data after :
  Forall (λ item, is_Some (stage_of item.1)) before →
  stage_of stage_key = None →
  print_recommendations (before ++ (stage_key, data) :: after)
  = ((print_recommendations before).1, Some (Raised (KeyError stage_key))).
Proof.
  intros Hbefore Hkey. unfold print_recommendations.
  set (body := λ item : string * Recommendation, _).
  rewrite (for_each_raise body before (stage_key, data) after
             [] (Raised (KeyError stage_key))).
  - unfold seq. simpl. by rewrite app_nil_r.
  - intros [k d] Hin. eapply Forall_forall in Hbefore; [|exact Hin].
    destruct Hbefore as [info Hinfo]. by apply (stage_block_ok k info d).
  - unfold body. cbn [fst snd]. unfold dict_getitem.
    unfold stage_of in Hkey. by rewrite Hkey.
Qed.

Lemma print_recommendations_foreign_key_witness :
  print_recommendations
    ([("awareness", entry_of sample_picker awareness_info 5)]
       ++ ("loyalty", entry_of sample_picker awareness_info 5) :: [])
  = ((print_recommendations
        [("awareness", entry_of sample_picker awareness_info 5)]).1,
     Some (Raised (KeyError "loyalty"))).
Proof.
  apply print_recommendations_foreign_key.
  - apply (bool_decide_unpack _). reflexivity.
  - reflexivity.
Defined.

(** X13. In the printed list an effort of 0 hours and an empty impact are
    treated as missing: the strategy prints exactly as the same strategy
    without the field, three lines and no impact or effort line between
    them. *)
Theorem print_strategy_falsy_fields i strategy_name text strategy_types :
  print_strategy i {| name := strategy_name; description := text;
                      types := strategy_types;
                      effort_hours := Some 0; impact := Some "" |}
  = print_strategy i {| name := strategy_name; description := text;
                        types := strategy_types;
                        effort_hours := None; impact := None |} ∧
  print_strategy i {| name := strategy_name; description := text;
                      types := strategy_types;
                      effort_hours := Some 0; impact := Some "" |}
  = (["   " +:+ pretty i +:+ ". " +:+ strategy_name;
      "      💡 " +:+ str_slice_to text 100 +:+ "...";
      ""], None).
Proof. split; reflexivity. Qed.

Lemma available_count_catalog self stage_key stage_info :
  stage_of stage_key = Some stage_info →
  available_count self stage_info
  = Some (Z.of_nat (length (stage_buckets self stage_info))).
Proof.
  intros Hstage. destruct (catalog_single_label _ _ Hstage) as [label Hlabel].
  unfold available_count, stage_buckets. rewrite Hlabel. csimpl.
  by rewrite app_nil_r.
Qed.

Lemma dedup_loop_distinct l seen :
  NoDup (name <$> l) →
  (∀ strategy, strategy ∈ l → name strategy ∉ seen) →
  dedup_loop l seen [] = l.
Proof.
  revert seen. induction l as [|x l IH]; intros seen Hnodup Hseen; [done|].
  rewrite fmap_cons in Hnodup. apply NoDup_cons in Hnodup as [Hx Hnodup].
  rewrite dedup_loop_cons, decide_True by (apply Hseen; left).
  f_equal. apply IH; [done|]. intros strategy Hin.
  rewrite not_elem_of_union, not_elem_of_singleton. split.
  - intros Heq. apply Hx. rewrite <- Heq. apply list_elem_of_fmap. eauto.
  - apply Hseen. by right.
Qed.

(** X14. The number of strategies that the overview and the interactive
    menu announce for a catalog stage is the size of the stage's bucket
    before deduplication. It is never below the number of strategies the
    stage query returns, whatever the limit, and the two agree when the
    names in the bucket are distinct and the limit is at least that
    number. *)
Theorem available_count_bounds_result self stage_key stage_info :
  stage_of stage_key = Some stage_info →
  ∃ available,
    available_count self stage_info = Some available ∧
    available = Z.of_nat (length (stage_buckets self stage_info)) ∧
    (∀ limit, ∃ out,
       get_strategies_for_stage self stage_key limit = Ok out ∧
       Z.of_nat (length out) ≤ available) ∧
    (∀ limit,
       NoDup (name <$> stage_buckets self stage_info) →
       available ≤ limit →
       ∃ out,
         get_strategies_for_stage self stage_key limit = Ok out ∧
         Z.of_nat (length out) = available).
Proof.
  intros Hstage. eexists.
  split; [by apply (available_count_catalog _ stage_key)|].
  split; [done|]. split.
  - intros limit. eexists. split; [by apply get_strategies_for_stage_known|].
    apply inj_le. etrans; [apply sublist_length, slice_to_sublist|].
    rewrite ranked_bucket_length. apply sublist_length, dedup_loop_sublist.
  - intros limit Hnodup Hlimit. eexists.
    split; [by apply get_strategies_for_stage_known|].
    assert (unique_bucket self stage_info = stage_buckets self stage_info)
      as Hunique.
    { apply dedup_loop_distinct; [done|]. intros; apply not_elem_of_empty. }
    rewrite slice_to_nonneg by lia.
    rewrite take_ge by (rewrite ranked_bucket_length, Hunique; lia).
    by rewrite ranked_bucket_length, Hunique.
Qed.

Lemma available_count_bounds_result_witness :
  ∃ available,
    available_count twice_picker awareness_info = Some available ∧
    available = Z.of_nat (length (stage_buckets twice_picker awareness_info)) ∧
    (∀ limit, ∃ out,
       get_strategies_for_stage twice_picker "awareness" limit = Ok out ∧
       Z.of_nat (length out) ≤ available) ∧
    (∀ limit,
       NoDup (name <$> stage_buckets twice_picker awareness_info) →
       available ≤ limit →
       ∃ out,
         get_strategies_for_stage twice_picker "awareness" limit = Ok out ∧
         Z.of_nat (length out) = available).
Proof.
  apply (available_count_bounds_result twice_picker "awareness").
  reflexivity.
Defined.

(** The record indexed twice counts twice in the overview and once in the
    result. *)
Example available_count_twice :
  available_count twice_picker awareness_info = Some 3 ∧
  get_strategies_for_stage twice_picker "awareness" 10
  = Ok [strategy_X; strategy_W].
Proof. split; reflexivity. Qed.

(** X15. The overview never raises: every stage of the catalog has a first
    label. After the title and the rule it prints, for the six stages in
    funnel order, the order and name, the description, the announced
    number of strategies and an empty line. *)
Theorem print_funnel_overview_lines self :
  print_funnel_overview self
  = (("🎯 ВОРОНКА ПРОДАЖ: от гостя до клиента" +:+ nl)
       :: str_mul "=" 60
       :: (FUNNEL_STAGES ≫= λ item,
             [ pretty (order item.2) +:+ ". " +:+ stage_name item.2;
               "   📝 " +:+ stage_description item.2;
               "   📊 Доступно стратегий: "
                 +:+ pretty (Z.of_nat (length (stage_buckets self item.2)));
               "" ]),
     None).
Proof.
  unfold stage_buckets, FUNNEL_STAGES.
  cbn [mbind list_bind fmap list_fmap stage_types snd app foldr].
  rewrite !app_nil_r. reflexivity.
Qed.

(** ** Records from the parser *)

Lemma parse_container_shape container strategy :
  parse_container container = Some strategy →
  name_elem container = Some (name strategy) ∧
  description strategy = default "" (desc_elem container) ∧
  (∃ labels, types strategy = Some labels ∧
             ∀ label, label ∈ labels ↔
                      label ∈ funnel_elems container ∧
                      label ≠ "" ∧ label ≠ "+1") ∧
  effort_hours strategy = found_effort_hours container ∧
  impact strategy ≠ Some "" ∧
  (impact strategy = None ↔
   impact_elem container = None ∨ impact_elem container = Some "").
Proof.
  unfold parse_container. destruct (name_elem container) as [n|]; [|done].
  intros [= <-]. simpl. repeat split; try done.
  - eexists. split; [done|]. intros label.
    rewrite list_elem_of_filter. tauto.
  - destruct (impact_elem container) as [text|]; [|done].
    case_bool_decide; [congruence|done].
  - destruct (impact_elem container) as [text|]; [|by left].
    case_bool_decide as Htext; [done|]. intros _. right. by f_equal.
  - intros [-> | ->]; done.
Qed.

(** X16. The parser emits one record per container that has a name element,
    in container order, and skips the others. Every emitted record has a
    list of labels without the empty text and without the counter text
    [+1], and never an empty impact. *)
Theorem parse_marketing_strategies_records strategy_containers :
  name <$> parse_marketing_strategies strategy_containers
  = omap name_elem strategy_containers ∧
  Forall (λ strategy,
            (∃ labels, types strategy = Some labels ∧
                       ("" ∉ labels) ∧ ("+1" ∉ labels)) ∧
            impact strategy ≠ Some "")
         (parse_marketing_strategies strategy_containers).
Proof.
  unfold parse_marketing_strategies. split.
  - induction strategy_containers as [|c cs IH]; [done|]. csimpl.
    destruct (parse_container c) as [strategy|] eqn:Hc.
    + apply parse_container_shape in Hc as (-> & _). csimpl. by f_equal.
    + unfold parse_container in Hc.
      destruct (name_elem c); [done|]. by csimpl.
  - apply Forall_forall. intros strategy Hin.
    apply list_elem_of_omap in Hin as (c & _ & Hc).
    apply parse_container_shape in Hc
      as (_ & _ & (labels & Htypes & Hlabels) & _ & Himpact & _).
    split; [|done]. exists labels. split; [done|].
    split; intros Hin; apply Hlabels in Hin as (_ & ? & ?); done.
Qed.

(** X17. In the picker built on the parser's records, no bucket exists for
    the counter text [+1] or for the empty text, and a record has the
    lowest sort key, the empty string, exactly when its container had no
    impact element or an empty one. *)
Theorem picker_on_parsed_records strategy_containers :
  strategies_by_type
    (__init__ (parse_marketing_strategies strategy_containers)) !! "+1"
  = None ∧
  strategies_by_type
    (__init__ (parse_marketing_strategies strategy_containers)) !! ""
  = None ∧
  Forall (λ strategy, get_impact strategy = "" ↔ impact strategy = None)
         (parse_marketing_strategies strategy_containers).
Proof.
  assert (∀ strategy,
            strategy ∈ parse_marketing_strategies strategy_containers →
            ("+1" ∉ get_types strategy) ∧ ("" ∉ get_types strategy) ∧
            impact strategy ≠ Some "") as Hshape.
  { intros strategy Hin. unfold parse_marketing_strategies in Hin.
    apply list_elem_of_omap in Hin as (c & _ & Hc).
    apply parse_container_shape in Hc
      as (_ & _ & (labels & Htypes & Hlabels) & _ & Himpact & _).
    unfold get_types. rewrite Htypes. simpl.
    repeat split; try done; intros Hin; apply Hlabels in Hin as (_ & ? & ?);
      done. }
  split; [|split].
  - apply group_fold_None. split; [apply lookup_empty|].
    intros strategy Hin. by apply Hshape.
  - apply group_fold_None. split; [apply lookup_empty|].
    intros strategy Hin. by apply Hshape.
  - apply Forall_forall. intros strategy Hin.
    destruct (Hshape strategy Hin) as (_ & _ & Himpact).
    unfold get_impact. destruct (impact strategy) as [text|]; simpl; [|done].
    split; [intros ->; done|done].
Qed.

(** A container without a name element gives no record; the counter text,
    the empty impact are dropped, an effort of 0 hours is kept. *)
Example parse_two_containers :
  parse_marketing_strategies [container_unnamed; container_A]
  = [ {| name := "A"; description := ""; types := Some ["Awareness"];
         effort_hours := Some 0; impact := None |} ].
Proof. reflexivity. Qed.

(** ** What the limit keeps *)

(** X18. Cutting at the limit keeps the best: every record the stage query
    returns has an impact key at least as high as that of every record of
    the deduplicated bucket it leaves out, for any limit, negative ones
    included. *)
Theorem get_strategies_for_stage_keeps_highest
    self stage_key stage_info limit :
  stage_of stage_key = Some stage_info →
  ∃ out,
    get_strategies_for_stage self stage_key limit = Ok out ∧
    ∀ kept left_out,
      kept ∈ out →
      left_out ∈ unique_bucket self stage_info →
      left_out ∉ out →
      impact_ge kept left_out.
Proof.
  intros Hstage. eexists.
  split; [by apply get_strategies_for_stage_known|].
  intros kept left_out Hkept Hbucket Hleft.
  destruct (slice_to_prefix (ranked_bucket self stage_info) limit)
    as [rest Hsplit].
  pose proof (ranked_bucket_sorted self stage_info) as Hsorted.
  rewrite Hsplit in Hsorted.
  eapply StronglySorted_app_1_elem_of; [exact Hsorted|done|].
  rewrite <- ranked_bucket_perm, Hsplit in Hbucket.
  by apply elem_of_app in Hbucket as [?|?].
Qed.

Lemma get_strategies_for_stage_keeps_highest_witness :
  ∃ out,
    get_strategies_for_stage sample_picker "awareness" 1 = Ok out ∧
    ∀ kept left_out,
      kept ∈ out →
      left_out ∈ unique_bucket sample_picker awareness_info →
      left_out ∉ out →
      impact_ge kept left_out.
Proof.
  apply (get_strategies_for_stage_keeps_highest sample_picker "awareness").
  reflexivity.
Defined.


(** ** Runs on the store *)

Lemma bind_Returns {A B} (m : St A) (k : A → St B) h a h' :
  m h = Returns a h' → (m ≫= k) h = k a h'.
Proof. unfold mbind, St_bind. by intros ->. Qed.

Lemma read_run (h : store) r l : h !! r = Some l → read r h = Returns l h.
Proof. unfold read. by intros ->. Qed.

Lemma write_run (h : store) r l0 l :
  h !! r = Some l0 → write r l h = Returns () (<[r := l]> h).
Proof. unfold write. by intros ->. Qed.

Lemma list_append_run (h : store) r l x :
  h !! r = Some l → list_append r x h = Returns () (<[r := l ++ [x]]> h).
Proof.
  intros Hr. unfold list_append.
  rewrite (bind_Returns _ _ _ _ _ (read_run _ _ _ Hr)).
  by apply write_run with l.
Qed.

Lemma list_extend_run (h : store) r src l l' :
  h !! r = Some l → h !! src = Some l' →
  list_extend r src h = Returns () (<[r := l ++ l']> h).
Proof.
  intros Hr Hsrc. unfold list_extend.
  rewrite (bind_Returns _ _ _ _ _ (read_run _ _ _ Hr)).
  rewrite (bind_Returns _ _ _ _ _ (read_run _ _ _ Hsrc)).
  by apply write_run with l.
Qed.

Lemma list_sort_by_impact_run (h : store) r l :
  h !! r = Some l →
  list_sort_by_impact r h
  = Returns () (<[r := sort_by_str_key_reverse get_impact l]> h).
Proof.
  intros Hr. unfold list_sort_by_impact.
  rewrite (bind_Returns _ _ _ _ _ (read_run _ _ _ Hr)).
  by apply write_run with l.
Qed.

Lemma list_slice_to_run (h : store) r l stop :
  h !! r = Some l →
  list_slice_to r stop h
  = Returns (fresh (dom h)) (<[fresh (dom h) := slice_to l stop]> h).
Proof.
  intros Hr. unfold list_slice_to.
  by rewrite (bind_Returns _ _ _ _ _ (read_run _ _ _ Hr)).
Qed.

Lemma list_len_run (h : store) r l :
  h !! r = Some l → list_len r h = Returns (Z.of_nat (length l)) h.
Proof.
  intros Hr. unfold list_len.
  by rewrite (bind_Returns _ _ _ _ _ (read_run _ _ _ Hr)).
Qed.

Lemma fresh_None (h : store) : h !! fresh (dom h) = None.
Proof. apply not_elem_of_dom, is_fresh. Qed.

Lemma fresh_ne (h : store) r : is_Some (h !! r) → r ≠ fresh (dom h).
Proof. intros [l Hl] ->. by rewrite fresh_None in Hl. Qed.

(** The loop of lines 101-103 writes to the list [strategies] alone, a list
    that is none of the store [h0] the buckets live in. *)
Lemma extend_by_types_st_run (h0 : store) self p tys strategies acc :
  holds_index h0 self p →
  h0 !! strategies = None →
  extend_by_types_st self tys strategies (<[strategies := acc]> h0)
  = Returns ()
      (<[strategies :=
           acc ++ (tys ≫= λ label, default [] (strategies_by_type p !! label))]>
         h0).
Proof.
  intros [Halloc Hindex] Hfresh. revert acc.
  induction tys as [|ty tys IH]; intros acc.
  { simpl. by rewrite app_nil_r. }
  cbn [extend_by_types_st]. rewrite bind_cons, Hindex.
  destruct (strategies_by_type_ref self !! ty) as [bucket|] eqn:Hty.
  - rewrite bool_decide_eq_true_2 by eauto.
    destruct (Halloc ty bucket Hty) as [l Hl]. simpl. rewrite Hl. simpl.
    assert (bucket ≠ strategies) as Hne by congruence.
    erewrite bind_Returns; cycle 1.
    { unfold map_getitem. rewrite Hty.
      erewrite bind_Returns; [|reflexivity].
      apply (list_extend_run _ _ _ acc l).
      - apply lookup_insert_eq.
      - by rewrite lookup_insert_ne. }
    rewrite insert_insert_eq, IH. by rewrite <- app_assoc.
  - rewrite bool_decide_eq_false_2 by (by intros [? ?]). simpl.
    erewrite bind_Returns; [|reflexivity]. apply IH.
Qed.

(** The loop of lines 108-111 reads the list [strategies] and writes to the
    list [unique_strategies] alone. *)
Lemma dedup_for_in_run (h : store) fuel strategies unique l i seen acc :
  strategies ≠ unique →
  h !! strategies = Some l →
  h !! unique = Some acc →
  (length l - i < fuel)%nat →
  ∃ seen',
    for_in fuel strategies i
      (λ (seen_names : gset string) strategy,
         if bool_decide (name strategy ∉ seen_names)
         then _ ← list_append unique strategy;
              mret ({[name strategy]} ∪ seen_names)
         else mret seen_names)
      seen h
    = Returns seen' (<[unique := dedup_loop (drop i l) seen acc]> h).
Proof.
  intros Hne. revert h i seen acc.
  induction fuel as [|fuel IH]; intros h i seen acc Hs Hu Hfuel; [lia|].
  cbn [for_in]. rewrite (bind_Returns _ _ _ _ _ (read_run _ _ _ Hs)).
  destruct (l !! i) as [x|] eqn:Hi.
  - rewrite (drop_S _ _ _ Hi). cbn [dedup_loop].
    assert (i < length l)%nat by (by eapply lookup_lt_Some).
    case_bool_decide.
    + erewrite bind_Returns; cycle 1.
      { erewrite bind_Returns; [|by apply list_append_run]. reflexivity. }
      destruct (IH (<[unique := acc ++ [x]]> h) (S i)
                  ({[name x]} ∪ seen) (acc ++ [x])) as [seen' ->].
      * by rewrite lookup_insert_ne.
      * apply lookup_insert_eq.
      * lia.
      * exists seen'. by rewrite insert_insert_eq.
    + erewrite bind_Returns; [|reflexivity].
      apply IH; [done|done|lia].
  - apply lookup_ge_None in Hi. rewrite drop_ge by done. simpl.
    exists seen. unfold mret, St_ret. by rewrite insert_id.
Qed.

Lemma dict_get_elem_of_pair {V} (d : list (string * V)) k v :
  dict_get d k = Some v → (k, v) ∈ d.
Proof.
  induction d as [|[k' v'] d IH]; simpl; [done|].
  case_decide; [intros [= ->]; subst; left|intros; right; auto].
Qed.

Lemma sum_list_with_elem_of {A} (f : A → nat) (l : list A) x :
  x ∈ l → (f x ≤ sum_list_with f l)%nat.
Proof.
  induction 1 as [x l|x y l Hin IH]; simpl; lia.
Qed.

Lemma fuel_bound_stage p stage_key stage_info :
  stage_of stage_key = Some stage_info →
  (length (stage_buckets p stage_info) < fuel_bound p)%nat.
Proof.
  intros Hstage%dict_get_elem_of_pair. unfold fuel_bound.
  apply Nat.lt_succ_r.
  apply (sum_list_with_elem_of
           (λ item : string * StageInfo, length (stage_buckets p item.2))
           _ _ Hstage).
Qed.

(** A call of the stage query on the store returns a new list object that
    holds what the first model returns, and changes no list object that
    was there before the call. *)
Lemma get_strategies_for_stage_st_run (h : store) self p fuel stage_key limit :
  holds_index h self p →
  (fuel_bound p ≤ fuel)%nat →
  ∃ out r h',
    get_strategies_for_stage_st fuel self stage_key limit h = Returns r h' ∧
    get_strategies_for_stage p stage_key limit = Ok out ∧
    h !! r = None ∧
    h' !! r = Some out ∧
    ∀ r0, is_Some (h !! r0) → h' !! r0 = h !! r0.
Proof.
  intros Hholds Hfuel. unfold get_strategies_for_stage_st.
  destruct (stage_of stage_key) as [stage_info|] eqn:Hstage.
  - rewrite (get_strategies_for_stage_known _ _ _ _ Hstage).
    pose proof Hstage as Hget. unfold stage_of in Hget.
    unfold dict_contains, dict_getitem. rewrite Hget.
    rewrite bool_decide_eq_true_2 by eauto. cbn [negb].
    erewrite bind_Returns; [|reflexivity].
    erewrite bind_Returns; [|reflexivity].
    erewrite bind_Returns; cycle 1.
    { apply (extend_by_types_st_run h self p); [done|apply fresh_None]. }
    rewrite app_nil_l.
    change (stage_types stage_info ≫= _) with (stage_buckets p stage_info).
    set (s := fresh (dom h)).
    set (h2 := <[s := stage_buckets p stage_info]> h).
    erewrite bind_Returns; [|reflexivity].
    set (u := fresh (dom h2)).
    assert (h2 !! s = Some (stage_buckets p stage_info)) as Hs
      by apply lookup_insert_eq.
    assert (s ≠ u) as Hsu by (apply fresh_ne; eauto).
    destruct (dedup_for_in_run (<[u := []]> h2) fuel s u
                (stage_buckets p stage_info) 0 ∅ []) as [seen' Hloop].
    { done. }
    { by rewrite lookup_insert_ne. }
    { apply lookup_insert_eq. }
    { pose proof (fuel_bound_stage p _ _ Hstage). lia. }
    erewrite bind_Returns; [|exact Hloop].
    rewrite insert_insert_eq, drop_0.
    fold (unique_bucket p stage_info).
    erewrite bind_Returns;
      [|apply list_sort_by_impact_run, lookup_insert_eq].
    rewrite insert_insert_eq. fold (ranked_bucket p stage_info).
    set (h3 := <[u := ranked_bucket p stage_info]> h2).
    rewrite (list_slice_to_run h3 u (ranked_bucket p stage_info))
      by apply lookup_insert_eq.
    set (r := fresh (dom h3)).
    assert (∀ r0, is_Some (h !! r0) → h3 !! r0 = h !! r0) as Hframe.
    { intros r0 Hr0. unfold h3, h2.
      rewrite !lookup_insert_ne; [done|by apply not_eq_sym, fresh_ne|].
      apply not_eq_sym, fresh_ne. unfold h2.
      by rewrite lookup_insert_ne by (by apply not_eq_sym, fresh_ne). }
    eexists _, r, _. split; [reflexivity|]. split; [reflexivity|].
    split; [|split].
    + destruct (h !! r) as [l|] eqn:Hr; [|done].
      assert (h3 !! r = Some l) as Hr3 by (rewrite Hframe; eauto).
      unfold r in Hr3. by rewrite fresh_None in Hr3.
    + apply lookup_insert_eq.
    + intros r0 Hr0. rewrite lookup_insert_ne; [by apply Hframe|].
      apply not_eq_sym, fresh_ne. rewrite Hframe by done. done.
  - rewrite (get_strategies_for_stage_unknown _ _ _ Hstage).
    unfold dict_contains. unfold stage_of in Hstage. rewrite Hstage.
    rewrite bool_decide_eq_false_2 by (by intros [? ?]). cbn [negb].
    eexists [], _, _. split; [reflexivity|]. split; [done|].
    split; [apply fresh_None|]. split; [apply lookup_insert_eq|].
    intros r0 Hr0. rewrite lookup_insert_ne; [done|].
    by apply not_eq_sym, fresh_ne.
Qed.

Lemma holds_index_snapshot (h : store) self :
  index_allocated h self → holds_index h self (snapshot h self).
Proof.
  intros Halloc. split; [done|]. intros label. simpl. apply lookup_omap.
Qed.

Lemma holds_index_frame (h h' : store) self p :
  holds_index h self p →
  (∀ r0, is_Some (h !! r0) → h' !! r0 = h !! r0) →
  holds_index h' self p.
Proof.
  intros [Halloc Hindex] Hframe. split.
  - intros label r Hr. rewrite Hframe; by apply (Halloc label r).
  - intros label. rewrite Hindex.
    destruct (strategies_by_type_ref self !! label) as [r|] eqn:Hr; [|done].
    simpl. symmetry. apply Hframe. by apply (Halloc label r).
Qed.

Lemma report_contents_frame (h h' : store) report :
  Forall (λ item : string * RecommendationObject,
            is_Some (h !! obj_strategies item.2)) report →
  (∀ r0, is_Some (h !! r0) → h' !! r0 = h !! r0) →
  report_contents h' report = report_contents h report.
Proof.
  intros Hall Hframe. unfold report_contents.
  apply Forall_fmap_ext_1. eapply Forall_impl; [exact Hall|].
  intros item Hitem. simpl in *. by rewrite Hframe.
Qed.

Lemma report_contents_setitem (h : store) report k
    (entry : RecommendationObject) :
  report_contents h (dict_setitem report k entry)
  = dict_setitem (report_contents h report) k
      {| rec_stage_name := obj_stage_name entry;
         rec_description := obj_description entry;
         rec_strategies := default [] (h !! obj_strategies entry);
         count := obj_count entry |}.
Proof.
  induction report as [|[k' e'] report IH]; [done|]. simpl.
  case_decide; [done|]. simpl. by rewrite <- IH.
Qed.

(** The loop of lines 142-151 on the store does what it does in the first
    model, and changes no list object that was there before. *)
Lemma recommend_loop_st_run (h : store) self p fuel stages limit recs :
  holds_index h self p →
  (fuel_bound p ≤ fuel)%nat →
  Forall (λ item : string * RecommendationObject,
            is_Some (h !! obj_strategies item.2)) recs →
  Forall (λ k, is_Some (stage_of k)) stages →
  ∃ report h',
    recommend_loop_st fuel self stages limit recs h = Returns report h' ∧
    recommend_loop p stages limit (report_contents h recs)
    = Ok (report_contents h' report) ∧
    Forall (λ item : string * RecommendationObject,
              is_Some (h' !! obj_strategies item.2)) report ∧
    ∀ r0, is_Some (h !! r0) → h' !! r0 = h !! r0.
Proof.
  intros Hholds Hfuel Hrecs Hstages. revert h recs Hholds Hrecs.
  induction Hstages as [|k stages [stage_info Hk] Hstages IH];
    intros h recs Hholds Hrecs.
  { exists recs, h. by repeat split. }
  cbn [recommend_loop_st recommend_loop]. unfold dict_getitem.
  pose proof Hk as Hget. unfold stage_of in Hget. rewrite Hget. simpl.
  erewrite bind_Returns; [|reflexivity].
  destruct (get_strategies_for_stage_st_run h self p fuel k limit Hholds Hfuel)
    as (out & r & h1 & Hrun & Hpure & Hfresh & Hout & Hframe).
  erewrite bind_Returns; [|exact Hrun].
  erewrite bind_Returns; [|by apply list_len_run].
  rewrite Hpure. simpl.
  set (entry := {| obj_stage_name := stage_name stage_info;
                   obj_description := stage_description stage_info;
                   obj_strategies := r;
                   obj_count := Z.of_nat (length out) |}).
  destruct (IH h1 (dict_setitem recs k entry)) as (report & h' & Hloop & Hres & Hall & Hframe').
  - by eapply holds_index_frame.
  - apply Forall_forall. intros item [Hin| ->]%elem_of_dict_setitem.
    + eapply Forall_forall in Hrecs; [|exact Hin].
      rewrite Hframe; done.
    + simpl. eauto.
  - exists report, h'. split; [exact Hloop|]. split; [|split; [done|]].
    + rewrite <- Hres, report_contents_setitem. simpl. rewrite Hout. simpl.
      by rewrite (report_contents_frame h h1).
    + intros r0 Hr0. rewrite Hframe'; [by apply Hframe|].
      rewrite Hframe; done.
Qed.

Lemma sorted_stages_Ok (selected : list string) :
  ∃ sorted_stages,
    sorted_by_int_key
      (λ x, stage_info ← dict_getitem FUNNEL_STAGES x; Ok (order stage_info))
      (filter (λ stage, dict_contains FUNNEL_STAGES stage) selected)
    = Ok sorted_stages ∧
    Forall (λ k, is_Some (stage_of k)) sorted_stages.
Proof.
  eexists. split.
  - apply (sorted_by_int_key_Ok order_of). intros x Hx.
    apply dict_getitem_order.
    apply list_elem_of_filter in Hx as [Hx _]. by apply dict_contains_stage.
  - apply Forall_forall. intros k Hk. apply elem_of_stable_sort in Hk.
    apply list_elem_of_filter in Hk as [Hk _]. by apply dict_contains_stage.
Qed.

(** A call of the report builder on the store returns a report that holds
    what the first model returns, and changes no list object that was
    there before. *)
Lemma get_funnel_recommendations_st_run
    (h : store) self p fuel selected_stages limit :
  holds_index h self p →
  (fuel_bound p ≤ fuel)%nat →
  ∃ report h',
    get_funnel_recommendations_st fuel self selected_stages limit h
    = Returns report h' ∧
    get_funnel_recommendations p selected_stages limit
    = Ok (report_contents h' report) ∧
    Forall (λ item : string * RecommendationObject,
              is_Some (h' !! obj_strategies item.2)) report ∧
    ∀ r0, is_Some (h !! r0) → h' !! r0 = h !! r0.
Proof.
  intros Hholds Hfuel.
  unfold get_funnel_recommendations_st, get_funnel_recommendations.
  destruct (sorted_stages_Ok
              (match selected_stages with
               | SelNone => dict_keys FUNNEL_STAGES
               | SelList stages => stages
               | SelOther stage => [stage]
               end)) as (sorted_stages & -> & Hall).
  simpl. erewrite bind_Returns; [|reflexivity].
  destruct (recommend_loop_st_run h self p fuel sorted_stages limit []
              Hholds Hfuel (Forall_nil_2 _) Hall)
    as (report & h' & Hrun & Hpure & Hrefs & Hframe).
  by exists report, h'.
Qed.

(** C8. The report builder is deterministic from call to call. Two calls in
    a row on the same picker object, with the same requested stages and
    the same per-stage limit, return reports with the same contents: the
    same stage entries, the same records in the same order within each
    stage, the same counts. The first call changes no list object that
    existed before it, neither a bucket of the index nor [self.strategies],
    so the second call finds the index as the first one did; and the
    second call leaves the report of the first one as it was. *)
Theorem get_funnel_recommendations_repeatable
    (h : store) self selected_stages limit fuel1 fuel2 :
  index_allocated h self →
  (fuel_bound (snapshot h self) ≤ fuel1)%nat →
  (fuel_bound (snapshot h self) ≤ fuel2)%nat →
  ∃ report1 h1 report2 h2,
    get_funnel_recommendations_st fuel1 self selected_stages limit h
    = Returns report1 h1 ∧
    get_funnel_recommendations_st fuel2 self selected_stages limit h1
    = Returns report2 h2 ∧
    report_contents h2 report2 = report_contents h1 report1 ∧
    report_contents h2 report1 = report_contents h1 report1 ∧
    get_funnel_recommendations (snapshot h self) selected_stages limit
    = Ok (report_contents h1 report1) ∧
    ∀ r, is_Some (h !! r) → h1 !! r = h !! r ∧ h2 !! r = h !! r.
Proof.
  intros Halloc%holds_index_snapshot Hfuel1 Hfuel2.
  destruct (get_funnel_recommendations_st_run
              h self _ fuel1 selected_stages limit Halloc Hfuel1)
    as (report1 & h1 & Hrun1 & Hpure1 & Hrefs1 & Hframe1).
  assert (holds_index h1 self (snapshot h self)) as Halloc1
    by (by eapply holds_index_frame).
  destruct (get_funnel_recommendations_st_run
              h1 self _ fuel2 selected_stages limit Halloc1 Hfuel2)
    as (report2 & h2 & Hrun2 & Hpure2 & Hrefs2 & Hframe2).
  exists report1, h1, report2, h2.
  split; [done|]. split; [done|]. split; [congruence|].
  split; [by apply report_contents_frame|]. split; [done|].
  intros r Hr. split; [by apply Hframe1|].
  rewrite Hframe2; [by apply Hframe1|]. by rewrite Hframe1.
Qed.

Lemma get_funnel_recommendations_repeatable_witness :
  ∃ report1 h1 report2 h2,
    get_funnel_recommendations_st
      5 sample_object (SelList ["retention"; "awareness"]) 1 sample_store
    = Returns report1 h1 ∧
    get_funnel_recommendations_st
      5 sample_object (SelList ["retention"; "awareness"]) 1 h1
    = Returns report2 h2 ∧
    report_contents h2 report2 = report_contents h1 report1 ∧
    report_contents h2 report1 = report_contents h1 report1 ∧
    get_funnel_recommendations
      (snapshot sample_store sample_object)
      (SelList ["retention"; "awareness"]) 1
    = Ok (report_contents h1 report1) ∧
    ∀ r, is_Some (sample_store !! r) →
         h1 !! r = sample_store !! r ∧ h2 !! r = sample_store !! r.
Proof.
  apply (get_funnel_recommendations_repeatable
           sample_store sample_object (SelList ["retention"; "awareness"])
           1 5 5).
  - apply (bool_decide_unpack _). vm_compute. reflexivity.
  - vm_compute. lia.
  - vm_compute. lia.
Defined.

(** The store does record a change made in place: had a call appended a
    record to a bucket of the index, the next report would differ. *)
Example store_change_is_seen :
  ∃ h',
    list_append 3 strategy_X sample_store = Returns () h' ∧
    get_funnel_recommendations
      (snapshot h' sample_object) (SelList ["retention"]) 10
    ≠ get_funnel_recommendations
        (snapshot sample_store sample_object) (SelList ["retention"]) 10.
Proof. eexists. split; [reflexivity|]. vm_compute. discriminate. Qed.
